(** * AgroLens front end: orchestration logic

    A shallow embedding of the client-side logic of the AgroLens single-page
    application, and the properties of it that its specification states:

    - [GeminiService]: [mapBackendResponseToDiseaseResult], [detectDisease]
      and [sendMessageToChat] (services/geminiService.ts);
    - [WeatherForecast]: the date reconciliation of [fetchWeatherData]
      (components/WeatherForecast.tsx);
    - [DiseaseDetector]: [openCamera] and [closeCamera]
      (components/DiseaseDetector.tsx);
    - [DetectorView]: the rest of that component, [toggleCameraFacing],
      [checkForCamera], [handleCapture], [handleDetectDisease], the effect
      on the language and the blocks of the result view;
    - [Chat]: [handleSendMessage] and the greeting (components/Chat.tsx).

    Asynchronous calls are embedded by their settled outcome: a promise that
    resolves is [Return], one that rejects is [Throw]. The browser, the
    network and the clock are inputs of the functions that consult them. *)

From Stdlib Require Import Ascii QArith Qround.
From stdpp Require Import gmap strings list sorting pretty.

#[local] Set Warnings "-register-all,-clear-no-such-hyp".

(** ** JavaScript values and built-ins *)

Module Js.

(** Strings are sequences of code units; the embedding covers the code units
    U+0000 to U+00FF, one [ascii] each. *)

Definition code (c : ascii) : N := N_of_ascii c.

(** [String.prototype.toLowerCase], per code unit: the Basic Latin capitals
    and the Latin-1 capitals (U+00C0 to U+00DE, the multiplication sign
    U+00D7 apart) move up by 32; every other code unit stays. *)
Definition toLowerCase_char (c : ascii) : ascii :=
  let n := code c in
  if ((65 <=? n) && (n <=? 90))%N
     || ((192 <=? n) && (n <=? 222) && negb (n =? 215))%N
  then ascii_of_N (n + 32)
  else c.

Fixpoint toLowerCase (s : string) : string :=
  match s with
  | EmptyString => EmptyString
  | String c s' => String (toLowerCase_char c) (toLowerCase s')
  end.

(** [s.startsWith(pat)] *)
Fixpoint startsWith (s pat : string) {struct pat} : bool :=
  match pat, s with
  | EmptyString, _ => true
  | String p pat', String c s' => Ascii.eqb c p && startsWith s' pat'
  | String _ _, EmptyString => false
  end.

(** [s.includes(pat)]: [pat] occurs in [s] at some index. *)
Fixpoint includes (s pat : string) : bool :=
  startsWith s pat ||
  match s with
  | EmptyString => false
  | String _ s' => includes s' pat
  end.

(** [s.indexOf(pat)], [None] for -1. *)
Fixpoint indexOf (s pat : string) : option nat :=
  if startsWith s pat then Some 0
  else match s with
       | EmptyString => None
       | String _ s' => S <$> indexOf s' pat
       end.

Fixpoint str_take (n : nat) (s : string) : string :=
  match n, s with
  | S n', String c s' => String c (str_take n' s')
  | _, _ => EmptyString
  end.

Fixpoint str_drop (n : nat) (s : string) : string :=
  match n, s with
  | S n', String _ s' => str_drop n' s'
  | _, _ => s
  end.

(** The replacement text of [String.prototype.replace] for a string pattern
    (GetSubstitution without captures): [$$] is a dollar sign, [$&] the
    match, [$`] the text before it, [$'] the text after it. *)
Fixpoint substitution (before matched after rep : string) : string :=
  match rep with
  | EmptyString => EmptyString
  | String "$" (String "$" r) => String "$" (substitution before matched after r)
  | String "$" (String "&" r) => matched +:+ substitution before matched after r
  | String "$" (String "`" r) => before +:+ substitution before matched after r
  | String "$" (String "'" r) => after +:+ substitution before matched after r
  | String c r => String c (substitution before matched after r)
  end.

(** [s.replace(pat, rep)] with a string pattern: the first occurrence only. *)
Definition replace (s pat rep : string) : string :=
  match indexOf s pat with
  | None => s
  | Some i =>
      let before := str_take i s in
      let after := str_drop (i + String.length pat) s in
      before +:+ substitution before pat after rep +:+ after
  end.

(** [s.split(' ')[0]]: the text before the first space. *)
Fixpoint beforeSpace (s : string) : string :=
  match s with
  | EmptyString => EmptyString
  | String c s' => if Ascii.eqb c " " then EmptyString else String c (beforeSpace s')
  end.

(** [a.join(sep)] on an array of strings. *)
Fixpoint join (sep : string) (l : list string) : string :=
  match l with
  | [] => EmptyString
  | [x] => x
  | x :: l' => x +:+ sep +:+ join sep l'
  end.

(** A string is truthy unless it is empty. *)
Definition truthy_string (s : string) : bool :=
  negb (String.eqb s EmptyString).

(** [a || b] on strings, [a] possibly [undefined]. *)
Definition or_string (a : option string) (b : string) : string :=
  match a with
  | Some s => if truthy_string s then s else b
  | None => b
  end.

(** [a || []] on an optional array. *)
Definition or_list {A} (a : option (list A)) : list A :=
  match a with
  | Some l => l
  | None => []
  end.

(** Values produced by [JSON.parse]. An object lists its own properties in
    the order [Object.values] and [JSON.stringify] enumerate them, each key
    once. Numbers are the integral ones, printed in decimal. *)
Inductive JSON : Type :=
  | JNull
  | JBool (b : bool)
  | JNum (n : Z)
  | JStr (s : string)
  | JArr (l : list JSON)
  | JObj (props : list (string * JSON)).

Definition truthy (v : JSON) : bool :=
  match v with
  | JNull => false
  | JBool b => b
  | JNum n => negb (n =? 0)%Z
  | JStr s => truthy_string s
  | JArr _ | JObj _ => true
  end.

(** [typeof v === 'string'] *)
Definition is_string (v : JSON) : bool :=
  match v with
  | JStr _ => true
  | _ => false
  end.

(** [Array.isArray(v)] *)
Definition isArray (v : JSON) : bool :=
  match v with
  | JArr _ => true
  | _ => false
  end.

Fixpoint assoc (k : string) (props : list (string * JSON)) : option JSON :=
  match props with
  | [] => None
  | (k', v) :: rest => if String.eqb k k' then Some v else assoc k rest
  end.

(** [v.detail]: the own property of an object; primitives and arrays have no
    such property, so the read gives [undefined], here [None]. The read is
    only made on truthy values. *)
Definition get_detail (v : JSON) : option JSON :=
  match v with
  | JObj props => assoc "detail" props
  | _ => None
  end.

Definition dquote : ascii := ascii_of_N 34.

Definition hex_digit (n : N) : ascii :=
  ascii_of_N (if (n <? 10)%N then 48 + n else 87 + n).

(** QuoteJSONString, per code unit. *)
Definition quote_char (c : ascii) : string :=
  let n := code c in
  if (n =? 34)%N then String "\" (String dquote EmptyString)
  else if (n =? 92)%N then "\\"
  else if (n =? 8)%N then "\b"
  else if (n =? 9)%N then "\t"
  else if (n =? 10)%N then "\n"
  else if (n =? 12)%N then "\f"
  else if (n =? 13)%N then "\r"
  else if (n <? 32)%N then
    "\u00" +:+ String (hex_digit (n / 16)) (String (hex_digit (n mod 16)) EmptyString)
  else String c EmptyString.

Fixpoint quote_body (s : string) : string :=
  match s with
  | EmptyString => EmptyString
  | String c s' => quote_char c +:+ quote_body s'
  end.

Definition quote (s : string) : string :=
  String dquote (quote_body s +:+ String dquote EmptyString).

(** [JSON.stringify(v)] without indentation. *)
Fixpoint stringify (v : JSON) : string :=
  match v with
  | JNull => "null"
  | JBool true => "true"
  | JBool false => "false"
  | JNum n => pretty n
  | JStr s => quote s
  | JArr l => "[" +:+ join "," (map stringify l) +:+ "]"
  | JObj props =>
      "{" +:+ join "," (map (fun kv => quote (fst kv) +:+ ":" +:+ stringify (snd kv)) props)
          +:+ "}"
  end.

(** [String(v)], as a template literal converts [v]. *)
Fixpoint toString (v : JSON) : string :=
  match v with
  | JNull => "null"
  | JBool true => "true"
  | JBool false => "false"
  | JNum n => pretty n
  | JStr s => s
  | JArr l =>
      join "," (map (fun x => match x with JNull => EmptyString | _ => toString x end) l)
  | JObj _ => "[object Object]"
  end.

(** [Object.values(v)]; [None] where the call throws a [TypeError]. *)
Definition Object_values (v : JSON) : option (list JSON) :=
  match v with
  | JNull => None
  | JBool _ | JNum _ => Some []
  | JStr s => Some ((fun c => JStr (String c EmptyString)) <$> String.list_ascii_of_string s)
  | JArr l => Some l
  | JObj props => Some (snd <$> props)
  end.

(** Thrown values. Every value thrown in the embedded code is an [Error]
    object; [name] is its [name] property, which for the built-in classes is
    the class name. *)
Record JsError := mkError { name : string; message : string }.

Definition Error (msg : string) : JsError := mkError "Error" msg.
Definition TypeError (msg : string) : JsError := mkError "TypeError" msg.

(** [error instanceof TypeError] *)
Definition is_TypeError (error : JsError) : bool :=
  String.eqb (name error) "TypeError".

(** The outcome of a call that may throw, or of an awaited promise. *)
Inductive Result (A : Type) : Type :=
  | Return (a : A)
  | Throw (e : JsError).
Arguments Return {A} a.
Arguments Throw {A} e.

Definition bind {A B} (r : Result A) (k : A -> Result B) : Result B :=
  match r with
  | Return a => k a
  | Throw e => Throw e
  end.

(** [try { r } catch (error) { handler error }] *)
Definition try_catch {A} (r : Result A) (handler : JsError -> Result A) : Result A :=
  match r with
  | Return a => Return a
  | Throw e => handler e
  end.

(** What [await fetch(...)] gives: the promise rejects, or it resolves to a
    response with [response.ok] set ([Succeeded]) or not ([Failed]). A
    response carries its status and what [response.json()] and
    [response.text()] settle to; a success body has the type [A] that the
    caller declares for it, an error body is any JSON value. The two
    readings are given apart as the code makes them; on a response of the
    browser a [json()] that rejects has consumed the body, and the [text()]
    that follows rejects too, unless the response has no body. *)
Inductive FetchOutcome (A : Type) : Type :=
  | Rejected (e : JsError)
  | Succeeded (status : Z) (json : Result A)
  | Failed (status : Z) (json : Result JSON) (text : Result string).
Arguments Rejected {A} e.
Arguments Succeeded {A} status json.
Arguments Failed {A} status json text.

End Js.

(** ** The translation table

    [t : Record<string, string>] is the table of the selected language. The
    entries the code reads behind [||] may be absent; the others are read as
    they are. *)

Record Translations := {
  errorApi : string;
  errorApiConnection : string;
  chatError : string;
  today : string;
  tomorrow : string;
  dayAfterTomorrow : option string;
  weatherErrorApi : string;
  weatherErrorNoKey : string;
  errorCameraGeneric : option string;
  errorNoCamera : option string;
  errorCameraPermission : option string;
}.

Inductive Language := en | te | hi | es | ta.

(** ** services/geminiService.ts *)

Module GeminiService.
Import Js.

Record Medicine := {
  name : string;
  typical_dosage_or_application : string;
  notes : string;
}.

Record DiseaseInfo := {
  predicted_disease : string;
  confidence_score : Q;
}.

(** The fields of [treatment_details] that the mapping guards with [||] may
    be missing from the payload. *)
Record TreatmentDetails := {
  td_medicines : option (list Medicine);
  td_precautions : option (list string);
  td_causes : option (list string);
  td_summary : option string;
  td_disclaimer : option string;
}.

Record BackendDiseaseResponse := {
  disease_info : DiseaseInfo;
  treatment_details : TreatmentDetails;
}.

Record DiseaseDetectionResult := {
  diseaseName : string;
  medicines : list Medicine;
  precautions : list string;
  causes : list string;
  summary : string;
  disclaimer : string;
  isHealthy : bool;
  isCropDetected : bool;
}.

Definition mapBackendResponseToDiseaseResult
    (data : BackendDiseaseResponse) (t : Translations) : DiseaseDetectionResult :=
  let diseaseName := predicted_disease (disease_info data) in
  let isHealthy := includes (toLowerCase diseaseName) "healthy" in
  let isCropDetected := negb (includes (toLowerCase diseaseName) "no crop detected") in
  {| diseaseName := diseaseName;
     medicines := or_list (td_medicines (treatment_details data));
     precautions := or_list (td_precautions (treatment_details data));
     causes := or_list (td_causes (treatment_details data));
     summary := or_string (td_summary (treatment_details data)) EmptyString;
     disclaimer := or_string (td_disclaimer (treatment_details data)) EmptyString;
     isHealthy := isHealthy;
     isCropDetected := isCropDetected |}.

(** The specification's wording for the two flags: the name contains the
    pattern case-insensitively when some stretch of the name equals the
    pattern once both are put in lower case. *)
Definition contains_ignoring_case (diseaseName pattern : string) : Prop :=
  exists before found after,
    diseaseName = before +:+ found +:+ after /\
    toLowerCase found = toLowerCase pattern.

(** *** The network *)

Record File := { file_name : string; file_type : string; file_bytes : list N }.

Inductive Body :=
  | FormData (entries : list (string * File))
  | TextBody (text : string).

Record Request := {
  url : string;
  method : string;
  headers : list (string * string);
  body : Body;
}.

Definition langName (language : Language) : string :=
  match language with
  | en => "English"
  | te => "Telugu"
  | hi => "Hindi"
  | es => "Spanish"
  | ta => "Tamil"
  end.

(** *** detectDisease *)

Definition detectRequest (API_BASE_URL : string) (file : File) (language : Language) : Request :=
  {| url := API_BASE_URL +:+ "/detect_disease?language=" +:+ langName language;
     method := "POST";
     headers := [];
     body := FormData [("file", file)] |}.

(** [typeof d === 'string' ? d : JSON.stringify(d)] *)
Definition detailEntry (d : JSON) : string :=
  match d with
  | JStr s => s
  | _ => stringify d
  end.

(** The branch [if (!response.ok)], after the body parsed as JSON. *)
Definition detectErrorBody {A} (status : Z) (parsed : JSON) : Result A :=
  if (status =? 400)%Z && truthy parsed then
    match get_detail parsed with
    | Some detail =>
        if truthy detail then
          match detail with
          | JArr l => Throw (Error (join " " (detailEntry <$> l)))
          | JStr s => Throw (Error s)
          | _ => Throw (Error (stringify detail))
          end
        else Throw (Error (stringify parsed))
    | None => Throw (Error (stringify parsed))
    end
  else Throw (Error (stringify parsed)).

(** The specification's wording for the message of an error body: the
    [detail] string itself; for an array, its entries joined by spaces, the
    entries that are not strings as JSON text; for anything else, its JSON
    text. *)
Definition detailMessage (detail : JSON) : string :=
  match detail with
  | JStr s => s
  | JArr entries =>
      join " " ((fun d => if is_string d then toString d else stringify d) <$> entries)
  | _ => stringify detail
  end.

(** The [try] block. *)
Definition detectDisease_try (fetch : Request -> FetchOutcome BackendDiseaseResponse)
    (API_BASE_URL : string) (file : File) (language : Language) (t : Translations)
    : Result DiseaseDetectionResult :=
  match fetch (detectRequest API_BASE_URL file language) with
  | Rejected e => Throw e
  | Failed status json text =>
      match json with
      | Throw _ =>
          bind text (fun errorText =>
            Throw (Error ("HTTP error! status: " +:+ pretty status
                          +:+ ", message: " +:+ errorText)))
      | Return parsed => detectErrorBody status parsed
      end
  | Succeeded _ json =>
      bind json (fun data => Return (mapBackendResponseToDiseaseResult data t))
  end.

(** The [catch] block. *)
Definition detectDisease_catch {A} (API_BASE_URL : string) (t : Translations)
    (error : JsError) : Result A :=
  if is_TypeError error && String.eqb (message error) "Failed to fetch" then
    Throw (Error (replace (errorApiConnection t) "{url}" API_BASE_URL))
  else if truthy_string (message error) then Throw error
  else Throw (Error (errorApi t)).

Definition detectDisease (fetch : Request -> FetchOutcome BackendDiseaseResponse)
    (API_BASE_URL : string) (file : File) (language : Language) (t : Translations)
    : Result DiseaseDetectionResult :=
  if negb (truthy_string API_BASE_URL) then
    Throw (Error "API_BASE_URL is not configured in constants.ts")
  else
    try_catch (detectDisease_try fetch API_BASE_URL file language t)
              (detectDisease_catch API_BASE_URL t).

(** *** sendMessageToChat *)

Inductive Role := user | model.

Record ChatMessage := { role : Role; text : string }.

Definition wireRole (r : Role) : string :=
  match r with
  | model => "assistant"
  | user => "user"
  end.

Definition mappedHistory (history : list ChatMessage) : list JSON :=
  (fun h => JObj [("role", JStr (wireRole (role h))); ("content", JStr (text h))])
    <$> history.

Definition chatRequest (API_BASE_URL : string) (message : string)
    (history : list ChatMessage) : Request :=
  {| url := API_BASE_URL +:+ "/chat";
     method := "POST";
     headers := [("Content-Type", "application/json")];
     body := TextBody (stringify (JObj [("message", JStr message);
                                        ("history", JArr (mappedHistory history))])) |}.

(** [parsedError && parsedError.detail ? JSON.stringify(parsedError.detail)
    : parsedError], then converted by the template literal. *)
Definition chatErrorDetail (parsedError : JSON) : string :=
  match (if truthy parsedError then get_detail parsedError else None) with
  | Some detail => if truthy detail then stringify detail else toString parsedError
  | None => toString parsedError
  end.

(** The reply taken from a success body. *)
Definition chatReply (data : JSON) : Result string :=
  match Object_values data with
  | None => Throw (TypeError "Cannot convert undefined or null to object")
  | Some responseValues =>
      match responseValues with
      | JStr s :: _ => Return s
      | _ => Throw (Error "Unexpected chat response format from backend.")
      end
  end.

(** The specification's wording for the reply: the first value of the
    response object that is a string. *)
Fixpoint firstStringValue (values : list JSON) : option string :=
  match values with
  | [] => None
  | JStr s :: _ => Some s
  | _ :: rest => firstStringValue rest
  end.

(** The [try] block. *)
Definition sendMessageToChat_try (fetch : Request -> FetchOutcome JSON)
    (API_BASE_URL : string) (message : string) (history : list ChatMessage)
    : Result string :=
  match fetch (chatRequest API_BASE_URL message history) with
  | Rejected e => Throw e
  | Failed status json text =>
      bind (match json with
            | Return v => Return v
            | Throw _ => bind text (fun s => Return (JStr s))
            end)
           (fun parsedError =>
              Throw (Error ("HTTP error! status: " +:+ pretty status
                            +:+ ", details: " +:+ chatErrorDetail parsedError)))
  | Succeeded _ json => bind json chatReply
  end.

(** The [catch] block. *)
Definition sendMessageToChat_catch {A} (API_BASE_URL : string) (t : Translations)
    (error : JsError) : Result A :=
  if is_TypeError error && String.eqb (message error) "Failed to fetch" then
    Throw (Error (replace (errorApiConnection t) "{url}" API_BASE_URL))
  else Throw (Error (chatError t)).

Definition sendMessageToChat (fetch : Request -> FetchOutcome JSON)
    (API_BASE_URL : string) (message : string) (history : list ChatMessage)
    (t : Translations) : Result string :=
  if negb (truthy_string API_BASE_URL) then
    Throw (Error "API_BASE_URL is not configured in constants.ts")
  else
    try_catch (sendMessageToChat_try fetch API_BASE_URL message history)
              (sendMessageToChat_catch API_BASE_URL t).

End GeminiService.

(** ** components/WeatherForecast.tsx *)

Module WeatherForecast.
Import Js.

(** One entry of the forecast list of the weather service: [item.dt_txt],
    [item.main.temp], a number taken as a rational, and the array
    [item.weather]. *)
Record WeatherCondition := { description : string; icon : string }.

Record ForecastItem := {
  dt_txt : string;
  main_temp : Q;
  weather : list WeatherCondition;
}.

(** [WeatherInfo]; [info_icon] is its field [icon]. *)
Record WeatherInfo := {
  day : string;
  temp : Z;
  condition : string;
  info_icon : string;
}.

(** [Math.round]: the nearest integer, halves towards positive infinity. *)
Definition Math_round (x : Q) : Z := Qfloor (x + (1 # 2)).

(** The property names every plain object inherits from [Object.prototype];
    a read of one of them on [dailyForecasts] gives a truthy value that is
    not a forecast entry. *)
Definition Object_prototype_keys : list string :=
  [ "constructor"; "hasOwnProperty"; "isPrototypeOf"; "propertyIsEnumerable";
    "toLocaleString"; "toString"; "valueOf"; "__proto__";
    "__defineGetter__"; "__defineSetter__"; "__lookupGetter__"; "__lookupSetter__" ].

(** What a read [dailyForecasts[k]] gives and what a slot of [picked] holds:
    an entry, an inherited value, or nothing ([undefined] from a read, [null]
    as pushed; both are falsy). *)
Inductive Picked :=
  | Item (item : ForecastItem)
  | Inherited
  | Null.

Definition read (dailyForecasts : gmap string ForecastItem) (k : string) : Picked :=
  match dailyForecasts !! k with
  | Some item => Item item
  | None => if bool_decide (k ∈ Object_prototype_keys) then Inherited else Null
  end.

Definition truthy_picked (p : Picked) : bool :=
  match p with
  | Null => false
  | _ => true
  end.

(** [item.dt_txt.split(' ')[0]] *)
Definition dateOf (item : ForecastItem) : string := beforeSpace (dt_txt item).

(** The [forEach] over [data.list]: the first entry of each date is kept. *)
Definition storeFirst (dailyForecasts : gmap string ForecastItem) (item : ForecastItem)
    : gmap string ForecastItem :=
  let date := dateOf item in
  if negb (truthy_picked (read dailyForecasts date))
  then <[date := item]> dailyForecasts
  else dailyForecasts.

Definition groupByDate (data_list : list ForecastItem) : gmap string ForecastItem :=
  foldl storeFirst ∅ data_list.

(** The calendar date [toISOString] prints for a [Date]. *)
Record IsoDate := { year : N; month : N; date : N }.

Definition digit (n : N) : ascii := ascii_of_N (48 + n mod 10).

Definition digits2 (n : N) : string :=
  String (digit (n / 10)) (String (digit n) EmptyString).

Definition digits4 (n : N) : string :=
  String (digit (n / 1000)) (String (digit (n / 100)) (digits2 n)).

Definition digits6 (n : N) : string :=
  String (digit (n / 100000)) (String (digit (n / 10000)) (digits4 n)).

(** [d.toISOString().split('T')[0]]: four digits of year, or a sign and six
    digits beyond 9999. *)
Definition toKey (d : IsoDate) : string :=
  (if (year d <=? 9999)%N then digits4 (year d) else String "+" (digits6 (year d)))
  +:+ "-" +:+ digits2 (month d) +:+ "-" +:+ digits2 (date d).

(** [Object.keys(dailyForecasts).sort()]. Without a comparator [sort()]
    orders strings code unit by code unit, as [>=] compares them: the order
    [String.le]. *)
Definition sortedKeys (dailyForecasts : gmap string ForecastItem) : list string :=
  merge_sort String.le (map_to_list dailyForecasts).*1.

(** [availableKeys.find(p)] followed by the test [if (key)]: a key that is
    found but empty does not pass. *)
Definition findTruthy (p : string -> bool) (availableKeys : list string) : option string :=
  match List.find p availableKeys with
  | Some key => if truthy_string key then Some key else None
  | None => None
  end.

(** One turn of the loop [for (const tk of targetKeys)]. *)
Definition pickOne (dailyForecasts : gmap string ForecastItem) (availableKeys : list string)
    (st : list Picked * gset string) (tk : string) : list Picked * gset string :=
  let '(picked, usedKeys) := st in
  if truthy_picked (read dailyForecasts tk) && negb (bool_decide (tk ∈ usedKeys)) then
    (picked ++ [read dailyForecasts tk], usedKeys ∪ {[tk]})
  else
    match findTruthy (fun k => String.leb tk k && negb (bool_decide (k ∈ usedKeys)))
                     availableKeys with
    | Some candidateKey =>
        (picked ++ [read dailyForecasts candidateKey], usedKeys ∪ {[candidateKey]})
    | None =>
        match findTruthy (fun k => negb (bool_decide (k ∈ usedKeys))) availableKeys with
        | Some anyKey => (picked ++ [read dailyForecasts anyKey], usedKeys ∪ {[anyKey]})
        | None => (picked ++ [Null], usedKeys)
        end
    end.

Definition pick (dailyForecasts : gmap string ForecastItem) (targetKeys : list string)
    : list Picked * gset string :=
  foldl (pickOne dailyForecasts (sortedKeys dailyForecasts)) ([], ∅) targetKeys.

(** The clock and the locale: the three [Date] objects [today], [tomorrow]
    and [dayAfter] as [toISOString] prints them, and the weekday name
    [Intl.DateTimeFormat(language, { weekday: 'long' })] gives each. *)
Record Clock := {
  clock_today : IsoDate;
  clock_tomorrow : IsoDate;
  clock_dayAfter : IsoDate;
  weekday : Language -> IsoDate -> string;
}.

Definition dayDates (clock : Clock) : list IsoDate :=
  [clock_today clock; clock_tomorrow clock; clock_dayAfter clock].

(** The callback of [picked.map]. Reading [item.main.temp] off an inherited
    value, or [item.weather[0].description] off an empty array, throws. *)
Definition formatItem (t : Translations) (language : Language) (clock : Clock)
    (idx : nat) (item : Picked) : Result WeatherInfo :=
  let dayLabelFallback :=
    weekday clock language (default (clock_today clock) (dayDates clock !! idx)) in
  let dayLabel :=
    if (idx =? 0)%nat then today t
    else if (idx =? 1)%nat then tomorrow t
    else or_string (dayAfterTomorrow t) dayLabelFallback in
  match item with
  | Null => Return {| day := dayLabel; temp := 0; condition := EmptyString; info_icon := "01d" |}
  | Inherited => Throw (TypeError "Cannot read properties of undefined (reading 'temp')")
  | Item item =>
      match weather item with
      | [] => Throw (TypeError "Cannot read properties of undefined (reading 'description')")
      | w :: _ =>
          Return {| day := dayLabel; temp := Math_round (main_temp item);
                    condition := description w; info_icon := icon w |}
      end
  end.

(** [a.map(f)] for a callback that may throw: the first throw ends it. *)
Fixpoint mapFrom {A B} (f : nat -> A -> Result B) (idx : nat) (l : list A) : Result (list B) :=
  match l with
  | [] => Return []
  | x :: l' => bind (f idx x) (fun y => bind (mapFrom f (S idx) l') (fun ys => Return (y :: ys)))
  end.

(** From the parsed body to the value handed to [setWeatherData]. *)
Definition reconcile (t : Translations) (language : Language) (clock : Clock)
    (data_list : list ForecastItem) : Result (list WeatherInfo) :=
  let dailyForecasts := groupByDate data_list in
  let targetKeys := toKey <$> dayDates clock in
  let picked := (pick dailyForecasts targetKeys).1 in
  bind (mapFrom (formatItem t language clock) 0 picked)
       (fun formattedData => Return (take 3 formattedData)).

(** The component state. *)
Record State := {
  weatherData : list WeatherInfo;
  loading : bool;
  error : option string;
}.

Definition setWeatherData (v : list WeatherInfo) (s : State) : State :=
  {| weatherData := v; loading := loading s; error := error s |}.
Definition setLoading (v : bool) (s : State) : State :=
  {| weatherData := weatherData s; loading := v; error := error s |}.
Definition setError (v : option string) (s : State) : State :=
  {| weatherData := weatherData s; loading := loading s; error := v |}.

(** The query of the forecast request. *)
Record ForecastQuery := {
  lat : Q;
  lon : Q;
  appid : string;
  units : string;
  lang : Language;
}.

(** The [try] block, up to the value for [setWeatherData]. *)
Definition fetchWeatherData_try (fetch : ForecastQuery -> FetchOutcome (list ForecastItem))
    (WEATHER_API_KEY : string) (t : Translations) (language : Language) (clock : Clock)
    (latitude longitude : Q) : Result (list WeatherInfo) :=
  match fetch {| lat := latitude; lon := longitude; appid := WEATHER_API_KEY;
                 units := "metric"; lang := language |} with
  | Rejected e => Throw e
  | Failed _ _ _ => Throw (Error "Failed to fetch weather data from OpenWeather API.")
  | Succeeded _ json => bind json (reconcile t language clock)
  end.

Definition fetchWeatherData (fetch : ForecastQuery -> FetchOutcome (list ForecastItem))
    (WEATHER_API_KEY : string) (t : Translations) (language : Language) (clock : Clock)
    (latitude longitude : Q) (s : State) : State :=
  let s := setError None (setLoading true s) in
  if negb (truthy_string WEATHER_API_KEY) then
    setLoading false (setError (Some (weatherErrorNoKey t)) s)
  else
    setLoading false
      match fetchWeatherData_try fetch WEATHER_API_KEY t language clock latitude longitude with
      | Return formattedData => setWeatherData formattedData s
      | Throw _ => setError (Some (weatherErrorApi t)) s
      end.

(** *** Vocabulary of the properties *)

Definition is_digit (c : ascii) : bool := (48 <=? code c)%N && (code c <=? 57)%N.

(** The shape of a calendar date as the weather service writes it:
    four digits, two digits and two digits, joined by hyphens. *)
Definition is_date_key (k : string) : bool :=
  match k with
  | String y1 (String y2 (String y3 (String y4 (String h1
      (String m1 (String m2 (String h2 (String d1 (String d2 EmptyString))))))))) =>
      is_digit y1 && is_digit y2 && is_digit y3 && is_digit y4 && Ascii.eqb h1 "-"
      && is_digit m1 && is_digit m2 && Ascii.eqb h2 "-" && is_digit d1 && is_digit d2
  | _ => false
  end.

(** A key that is not empty and does not name an inherited property. *)
Definition plain_key (k : string) : Prop :=
  k <> EmptyString /\ k ∉ Object_prototype_keys.

(** An entry as the weather service sends it: its timestamp starts with a
    calendar date and it has a weather condition. *)
Definition well_formed (item : ForecastItem) : bool :=
  is_date_key (dateOf item) && match weather item with [] => false | _ => true end.

(** The first entry of the list for a date. *)
Definition firstOf (data_list : list ForecastItem) (k : string) : option ForecastItem :=
  List.find (fun item => String.eqb (dateOf item) k) data_list.

(** The value pushed for a slot, from the key chosen for it. *)
Definition slot (dailyForecasts : gmap string ForecastItem) (key : option string) : Picked :=
  match key with
  | Some k => read dailyForecasts k
  | None => Null
  end.

Definition keySet (key : option string) : gset string :=
  match key with
  | Some k => {[k]}
  | None => ∅
  end.

(** A grouped date that no earlier slot has taken. *)
Definition available (dailyForecasts : gmap string ForecastItem) (usedKeys : gset string)
    (k : string) : Prop :=
  is_Some (dailyForecasts !! k) /\ k ∉ usedKeys.

(** The rule of selection for one target key: the target itself; else the
    least available key from the target on; else the least available key;
    else none, when nothing is available. *)
Definition chooses (dailyForecasts : gmap string ForecastItem) (usedKeys : gset string)
    (tk : string) (key : option string) : Prop :=
  match key with
  | Some k =>
      available dailyForecasts usedKeys k /\
      (k = tk \/
       (~ available dailyForecasts usedKeys tk /\ String.le tk k /\
        forall k', available dailyForecasts usedKeys k' -> String.le tk k' -> String.le k k') \/
       (~ available dailyForecasts usedKeys tk /\
        (forall k', available dailyForecasts usedKeys k' -> ~ String.le tk k') /\
        forall k', available dailyForecasts usedKeys k' -> String.le k k'))
  | None => forall k', ~ available dailyForecasts usedKeys k'
  end.

(** The keys chosen along the target keys, each choice made among the keys
    the earlier ones left. *)
Inductive Picks (dailyForecasts : gmap string ForecastItem)
    : gset string -> list string -> list (option string) -> Prop :=
  | Picks_nil usedKeys : Picks dailyForecasts usedKeys [] []
  | Picks_cons usedKeys tk targetKeys key keys :
      chooses dailyForecasts usedKeys tk key ->
      Picks dailyForecasts (usedKeys ∪ keySet key) targetKeys keys ->
      Picks dailyForecasts usedKeys (tk :: targetKeys) (key :: keys).

(** The entry shown for a slot that got no forecast. *)
Definition placeholder (dayLabel : string) : WeatherInfo :=
  {| day := dayLabel; temp := 0; condition := EmptyString; info_icon := "01d" |}.

(** The entry shown for a slot that got the forecast [item], whose first
    weather condition is [w]. *)
Definition shown (dayLabel : string) (item : ForecastItem) (w : WeatherCondition)
    : WeatherInfo :=
  {| day := dayLabel; temp := Math_round (main_temp item);
     condition := description w; info_icon := icon w |}.

(** The entry [e] shown under [dayLabel] for the slot that got [key]: the
    placeholder without a key, else the first entry of the list for the date
    [key] with its first weather condition. *)
Definition shows (data_list : list ForecastItem) (dayLabel : string)
    (key : option string) (e : WeatherInfo) : Prop :=
  match key with
  | None => e = placeholder dayLabel
  | Some k =>
      exists item w ws,
        firstOf data_list k = Some item /\ weather item = w :: ws /\
        e = shown dayLabel item w
  end.

(** The label of the third slot. *)
Definition thirdLabel (t : Translations) (language : Language) (clock : Clock) : string :=
  or_string (dayAfterTomorrow t) (weekday clock language (clock_dayAfter clock)).


(** The label of each slot. *)
Definition label (t : Translations) (language : Language) (clock : Clock) (idx : nat)
    : string :=
  match idx with
  | 0 => today t
  | 1 => tomorrow t
  | _ => thirdLabel t language clock
  end.

End WeatherForecast.

(** ** components/DiseaseDetector.tsx: the camera *)

Module DiseaseDetector.
Import Js.

Inductive Facing := environment | user.

(** The [video] member of the [MediaStreamConstraints] the component builds. *)
Inductive MediaStreamConstraints :=
  | DeviceIdExact (deviceId : string)
  | FacingModeExact (facing : Facing)
  | FacingModeIdeal (facing : Facing)
  | VideoTrue.

(** A track object is named by its identifier; a stream holds its tracks. *)
Record MediaStream := { stream_id : string; getTracks : list nat }.

Inductive ReadyState := live | ended.

(** [navigator]: [mediaDevices] and its [getUserMedia] may be missing. *)
Record MediaDevices := {
  getUserMedia : option (MediaStreamConstraints -> Result MediaStream);
}.

Record Navigator := { mediaDevices : option MediaDevices }.

(** The state of the component that the camera code touches, and beside it
    the [readyState] of every track object. *)
Record State := {
  stream : option MediaStream;
  isCameraOpen : bool;
  error : option string;
  cameraFacing : Facing;
  tracks : gmap nat ReadyState;
}.

Definition setStream (v : option MediaStream) (s : State) : State :=
  {| stream := v; isCameraOpen := isCameraOpen s; error := error s;
     cameraFacing := cameraFacing s; tracks := tracks s |}.
Definition setIsCameraOpen (v : bool) (s : State) : State :=
  {| stream := stream s; isCameraOpen := v; error := error s;
     cameraFacing := cameraFacing s; tracks := tracks s |}.
Definition setError (v : option string) (s : State) : State :=
  {| stream := stream s; isCameraOpen := isCameraOpen s; error := v;
     cameraFacing := cameraFacing s; tracks := tracks s |}.
Definition setTracks (v : gmap nat ReadyState) (s : State) : State :=
  {| stream := stream s; isCameraOpen := isCameraOpen s; error := error s;
     cameraFacing := cameraFacing s; tracks := v |}.

(** [track.stop()]: the track ends; on an ended track nothing changes. *)
Definition stop (track : nat) (ts : gmap nat ReadyState) : gmap nat ReadyState :=
  alter (fun _ => ended) track ts.

(** [stream.getTracks().forEach(track => track.stop())] *)
Definition stopAll (s : MediaStream) (ts : gmap nat ReadyState) : gmap nat ReadyState :=
  foldl (fun ts track => stop track ts) ts (getTracks s).

(** [closeCamera]. The callback is rebuilt when [stream] changes; the
    [stream] it closes over is its first argument. *)
Definition closeCamera (stream : option MediaStream) (s : State) : State :=
  let s := match stream with
           | Some st => setTracks (stopAll st (tracks s)) s
           | None => s
           end in
  setIsCameraOpen false (setStream None s).

(** [closeCamera] as built by the render that follows the state [s]. *)
Definition closeCamera_rendered (s : State) : State := closeCamera (stream s) s.

Record Options := { deviceId : option string; facing : option Facing }.

Definition optionsDeviceId (options : option Options) : option string :=
  options ≫= deviceId.

Definition optionsFacing (options : option Options) : option Facing :=
  options ≫= facing.

(** [tryConstraints], as pushed. A facing value is a non-empty string, so
    [options?.facing || cameraFacing || 'environment'] is the option's
    facing when given and [cameraFacing] otherwise. *)
Definition tryConstraints (options : option Options) (cameraFacing : Facing)
    : list MediaStreamConstraints :=
  let facingToTry := default cameraFacing (optionsFacing options) in
  match optionsDeviceId options with
  | Some deviceId => if truthy_string deviceId then [DeviceIdExact deviceId] else []
  | None => []
  end
  ++ [FacingModeExact facingToTry; FacingModeIdeal facingToTry; VideoTrue].

(** The loop [for (const constraints of tryConstraints)]: a rejected call is
    caught and the next one tried; the first stream ends the loop. *)
Fixpoint firstStream (getUserMedia : MediaStreamConstraints -> Result MediaStream)
    (constraints : list MediaStreamConstraints) : option MediaStream :=
  match constraints with
  | [] => None
  | c :: rest =>
      match getUserMedia c with
      | Return mediaStream => Some mediaStream
      | Throw _ => firstStream getUserMedia rest
      end
  end.

(** The [try] block, up to the stream for [setStream]. *)
Definition openCamera_try (navigator : Navigator) (options : option Options)
    (cameraFacing : Facing) : Result MediaStream :=
  match mediaDevices navigator ≫= getUserMedia with
  | None => Throw (Error "No mediaDevices support")
  | Some getUserMedia =>
      match firstStream getUserMedia (tryConstraints options cameraFacing) with
      | None => Throw (Error "Could not access any camera")
      | Some mediaStream => Return mediaStream
      end
  end.

(** The [catch] block: the table entry named after the error, or the
    built-in text. *)
Definition cameraErrorMessage (t : Translations) (err : JsError) : string :=
  let errorMessageKey :=
    if String.eqb (name err) "NotFoundError" || String.eqb (name err) "DevicesNotFoundError"
    then errorNoCamera
    else if String.eqb (name err) "NotAllowedError"
            || String.eqb (name err) "PermissionDeniedError"
    then errorCameraPermission
    else errorCameraGeneric in
  or_string (errorMessageKey t) "Could not access camera.".

Definition openCamera (navigator : Navigator) (t : Translations)
    (options : option Options) (s : State) : State :=
  match openCamera_try navigator options (cameraFacing s) with
  | Return mediaStream => setIsCameraOpen true (setStream (Some mediaStream) s)
  | Throw err => setError (Some (cameraErrorMessage t err)) s
  end.

(** *** Vocabulary of the properties *)

(** The call [getUserMedia(c)] rejects. *)
Definition rejects (getUserMedia : MediaStreamConstraints -> Result MediaStream)
    (c : MediaStreamConstraints) : Prop :=
  exists e, getUserMedia c = Throw e.

(** The stream is [null], or none of its tracks is live. *)
Definition stopped (stream : option MediaStream) (s : State) : Prop :=
  match stream with
  | None => True
  | Some st => forall track, track ∈ getTracks st -> tracks s !! track <> Some live
  end.

End DiseaseDetector.

(** ** Sample inputs *)

Module Sample.
Import Js.

Definition t : Translations :=
  {| errorApi := "An error occurred while analysing the image.";
     errorApiConnection := "Could not connect to the server at {url}.";
     chatError := "Sorry, something went wrong. Please try again.";
     today := "Today";
     tomorrow := "Tomorrow";
     dayAfterTomorrow := Some "Day After Tomorrow";
     weatherErrorApi := "Could not fetch weather data.";
     weatherErrorNoKey := "Weather API key is missing.";
     errorCameraGeneric := Some "Could not access the camera.";
     errorNoCamera := Some "No camera found on this device.";
     errorCameraPermission := Some "Camera permission denied." |}.

Definition API_BASE_URL : string := "http://127.0.0.1:8000".

Definition leaf : GeminiService.File :=
  {| GeminiService.file_name := "capture-1.jpg";
     GeminiService.file_type := "image/jpeg";
     GeminiService.file_bytes := [255; 216; 255]%N |}.

Definition response (predicted : string) : GeminiService.BackendDiseaseResponse :=
  {| GeminiService.disease_info :=
       {| GeminiService.predicted_disease := predicted;
          GeminiService.confidence_score := 924 # 10 |};
     GeminiService.treatment_details :=
       {| GeminiService.td_medicines := None;
          GeminiService.td_precautions := Some ["Avoid waterlogging"];
          GeminiService.td_causes := None;
          GeminiService.td_summary := Some "Late Blight is a common fungal disease.";
          GeminiService.td_disclaimer := None |} |}.

(** A backend that answers every request the same way. *)
Definition always {Query A} (outcome : FetchOutcome A) : Query -> FetchOutcome A :=
  fun _ => outcome.

Definition leafDetail : JSON :=
  JStr "No valid plant leaf detected. Please upload a clear image of a plant leaf.".

Definition validationDetail : JSON :=
  JArr [JObj [("loc", JArr [JStr "file"]); ("msg", JStr "field required")]].

Definition errorBody (detail : JSON) : JSON := JObj [("detail", detail)].

Definition noText : Result string :=
  Throw (TypeError "Failed to execute 'text' on 'Response': body stream already read").

(** A clock on 1 November 2026 and forecasts dated around it. *)
Definition clock : WeatherForecast.Clock :=
  {| WeatherForecast.clock_today :=
       {| WeatherForecast.year := 2026; WeatherForecast.month := 11;
          WeatherForecast.date := 1 |};
     WeatherForecast.clock_tomorrow :=
       {| WeatherForecast.year := 2026; WeatherForecast.month := 11;
          WeatherForecast.date := 2 |};
     WeatherForecast.clock_dayAfter :=
       {| WeatherForecast.year := 2026; WeatherForecast.month := 11;
          WeatherForecast.date := 3 |};
     WeatherForecast.weekday := fun _ _ => "Tuesday" |}.

Definition forecast (dt_txt : string) (temp : Q) (description : string)
    : WeatherForecast.ForecastItem :=
  {| WeatherForecast.dt_txt := dt_txt;
     WeatherForecast.main_temp := temp;
     WeatherForecast.weather :=
       [{| WeatherForecast.description := description;
           WeatherForecast.icon := "10d" |}] |}.

(** Three dates from today on, two entries for today. *)
Definition fromToday : list WeatherForecast.ForecastItem :=
  [ forecast "2026-11-01 18:00:00" (2150 # 100) "light rain";
    forecast "2026-11-01 21:00:00" (1930 # 100) "overcast clouds";
    forecast "2026-11-02 00:00:00" (1849 # 100) "moderate rain";
    forecast "2026-11-03 00:00:00" (175 # 10) "scattered clouds" ].

(** Today is missing: one earlier date and two later ones. *)
Definition withoutToday : list WeatherForecast.ForecastItem :=
  [ forecast "2026-10-31 21:00:00" (2010 # 100) "clear sky";
    forecast "2026-11-02 00:00:00" (1849 # 100) "moderate rain";
    forecast "2026-11-04 00:00:00" (-5 # 2) "snow" ].

(** Only dates before today. *)
Definition stale : list WeatherForecast.ForecastItem :=
  [ forecast "2026-10-30 21:00:00" (2010 # 100) "clear sky";
    forecast "2026-10-29 00:00:00" (1849 # 100) "moderate rain" ].

(** A device on which only the plain request [{ video: true }] succeeds. *)
Definition frontStream : DiseaseDetector.MediaStream :=
  {| DiseaseDetector.stream_id := "front"; DiseaseDetector.getTracks := [7] |}.

Definition anyCameraOnly : DiseaseDetector.Navigator :=
  {| DiseaseDetector.mediaDevices := Some
       {| DiseaseDetector.getUserMedia := Some (fun c =>
            match c with
            | DiseaseDetector.VideoTrue => Return frontStream
            | _ => Throw (mkError "OverconstrainedError" "Constraints could not be satisfied")
            end) |} |}.

Definition rearFacing : DiseaseDetector.Options :=
  {| DiseaseDetector.deviceId := None;
     DiseaseDetector.facing := Some DiseaseDetector.environment |}.

(** The camera view open on [frontStream], its track already ended. *)
Definition afterStop : DiseaseDetector.State :=
  {| DiseaseDetector.stream := Some frontStream;
     DiseaseDetector.isCameraOpen := true;
     DiseaseDetector.error := None;
     DiseaseDetector.cameraFacing := DiseaseDetector.environment;
     DiseaseDetector.tracks := {[ 7 := DiseaseDetector.ended; 8 := DiseaseDetector.live ]} |}.

End Sample.

(** ** components/DiseaseDetector.tsx: detection, capture and the result view *)

Module DetectorView.
Import Js GeminiService DiseaseDetector.

(** *** The camera, continued *)

Definition setCameraFacing (v : Facing) (s : State) : State :=
  {| stream := stream s; isCameraOpen := isCameraOpen s; error := error s;
     cameraFacing := v; tracks := tracks s |}.

(** [cameraFacing === 'environment' ? 'user' : 'environment'] *)
Definition otherFacing (f : Facing) : Facing :=
  match f with
  | environment => user
  | user => environment
  end.

(** [openCamera] as built by an earlier render: the [cameraFacing] it closes
    over is its first argument, the state it updates is [s]. *)
Definition openCamera_closure (cameraFacing : Facing) (navigator : Navigator)
    (t : Translations) (options : option Options) (s : State) : State :=
  match openCamera_try navigator options cameraFacing with
  | Return mediaStream => setIsCameraOpen true (setStream (Some mediaStream) s)
  | Throw err => setError (Some (cameraErrorMessage t err)) s
  end.

(** The part of [toggleCameraFacing] that runs at the click. *)
Definition toggleCameraFacing_click (s : State) : State :=
  let nextFacing := otherFacing (cameraFacing s) in
  let s1 := setCameraFacing nextFacing s in
  if isCameraOpen s then
    match stream s with
    | Some st => setStream None (setTracks (stopAll st (tracks s1)) s1)
    | None => s1
    end
  else s1.

(** [toggleCameraFacing] with its timer callback run: when the camera view is
    open, [openCamera({ facing: nextFacing })] of the render of the click. *)
Definition toggleCameraFacing (navigator : Navigator) (t : Translations) (s : State)
    : State :=
  let nextFacing := otherFacing (cameraFacing s) in
  let s1 := toggleCameraFacing_click s in
  if isCameraOpen s then
    openCamera_closure (cameraFacing s) navigator t
      (Some {| deviceId := None; facing := Some nextFacing |}) s1
  else s1.

(** *** checkForCamera *)

Record MediaDeviceInfo := { kind : string; device_id : string; label : string }.

Record Devices := {
  videoDevices : list MediaDeviceInfo;
  cameraAvailable : bool;
}.

(** [enumerateDevices] is [None] when [navigator.mediaDevices] or its
    [enumerateDevices] is missing, and else what the call settles to. *)
Definition checkForCamera (enumerateDevices : option (Result (list MediaDeviceInfo)))
    : Devices :=
  match enumerateDevices with
  | Some (Return devices) =>
      let videoInputs := List.filter (fun device => String.eqb (kind device) "videoinput")
                                     devices in
      {| videoDevices := videoInputs;
         cameraAvailable := (0 <? length videoInputs)%nat |}
  | Some (Throw _) => {| videoDevices := []; cameraAvailable := false |}
  | None => {| videoDevices := []; cameraAvailable := false |}
  end.

(** *** handleCapture *)

(** The state that a capture touches: the camera's, and the image. *)
Record Capture := {
  camera : State;
  file : option File;
  selectedImage : option string;
  result : option DiseaseDetectionResult;
}.

(** What the page gives a capture: the video element, if mounted; whether
    the canvas has a 2d context; the blob [toBlob] hands to its callback;
    [Date.now()]; and [URL.createObjectURL]. *)
Record CaptureEnv := {
  video : option (nat * nat);
  context : bool;
  blob : option (list N);
  now : N;
  createObjectURL : File -> string;
}.

Definition handleCapture (env : CaptureEnv) (v : Capture) : Capture :=
  match video env with
  | Some _ =>
      if context env then
        match blob env with
        | Some bytes =>
            let capturedFile :=
              {| file_name := "capture-" +:+ pretty (now env) +:+ ".jpg";
                 file_type := "image/jpeg";
                 file_bytes := bytes |} in
            {| camera := closeCamera (stream (camera v))
                           (DiseaseDetector.setError None (camera v));
               file := Some capturedFile;
               selectedImage := Some (createObjectURL env capturedFile);
               result := None |}
        | None => v
        end
      else v
  | None => v
  end.

(** *** handleDetectDisease *)

(** The state that a detection touches. [error] holds what [setError] was
    given last: a string, except when the server's [message] is not one. *)
Record Detection := {
  d_file : option File;
  d_result : option DiseaseDetectionResult;
  d_error : option JSON;
  d_loading : bool;
  d_retranslating : bool;
}.

Definition setResult (v : option DiseaseDetectionResult) (s : Detection) : Detection :=
  {| d_file := d_file s; d_result := v; d_error := d_error s;
     d_loading := d_loading s; d_retranslating := d_retranslating s |}.
Definition setError (v : option JSON) (s : Detection) : Detection :=
  {| d_file := d_file s; d_result := d_result s; d_error := v;
     d_loading := d_loading s; d_retranslating := d_retranslating s |}.
Definition setLoading (v : bool) (s : Detection) : Detection :=
  {| d_file := d_file s; d_result := d_result s; d_error := d_error s;
     d_loading := v; d_retranslating := d_retranslating s |}.

(** [v.message], as [get_detail] reads [v.detail]. *)
Definition get_message (v : JSON) : option JSON :=
  match v with
  | JObj props => assoc "message" props
  | _ => None
  end.

Definition backendLeafMsg : string :=
  "No valid plant leaf detected. Please upload a clear image of a plant leaf.".

(** The first part of the [catch] block: the message drawn from the error.
    [JSON_parse] is [JSON.parse]. *)
Definition extractMessage (JSON_parse : string -> Result JSON) (t : Translations)
    (err : JsError) : JSON :=
  let raw := message err in
  match indexOf raw "{" with
  | Some jsonStart =>
      match JSON_parse (str_drop jsonStart raw) with
      | Return parsed =>
          if truthy parsed then
            match get_detail parsed with
            | Some (JArr l) => JStr (join " " (detailEntry <$> l))
            | Some detail =>
                if truthy detail then
                  match detail with
                  | JStr s => JStr s
                  | _ => JStr (stringify detail)
                  end
                else
                  match get_message parsed with
                  | Some m => if truthy m then m else JStr raw
                  | None => JStr raw
                  end
            | None =>
                match get_message parsed with
                | Some m => if truthy m then m else JStr raw
                | None => JStr raw
                end
            end
          else JStr (errorApi t)
      | Throw _ => JStr raw
      end
  | None => JStr raw
  end.

(** The second part: a message that includes the backend's leaf message is
    shown in the table's words. On a truthy value without [includes] the
    call throws. *)
Definition showMessage (noValidLeafDetected : option string) (errorMessage : JSON)
    : Result JSON :=
  if truthy errorMessage then
    match errorMessage with
    | JStr s =>
        if includes s backendLeafMsg
        then Return (JStr (or_string noValidLeafDetected backendLeafMsg))
        else Return errorMessage
    | JArr l =>
        if existsb (fun x => match x with
                             | JStr s => String.eqb s backendLeafMsg
                             | _ => false
                             end) l
        then Return (JStr (or_string noValidLeafDetected backendLeafMsg))
        else Return errorMessage
    | _ => Throw (TypeError "errorMessage.includes is not a function")
    end
  else Return errorMessage.

(** [handleDetectDisease(currentFile, currentLanguage)]: the state it leaves
    and, when its promise rejects, the error. *)
Definition handleDetectDisease (fetch : Request -> FetchOutcome BackendDiseaseResponse)
    (API_BASE_URL : string) (JSON_parse : string -> Result JSON) (t : Translations)
    (noValidLeafDetected : option string)
    (currentFile : File) (currentLanguage : Language) (s : Detection)
    : Detection * option JsError :=
  let s := setResult None (setError None s) in
  match detectDisease fetch API_BASE_URL currentFile currentLanguage t with
  | Return detectionResult => (setResult (Some detectionResult) s, None)
  | Throw err =>
      match showMessage noValidLeafDetected (extractMessage JSON_parse t err) with
      | Return shown => (setError (Some shown) s, None)
      | Throw e => (s, Some e)
      end
  end.


(** The message shown for a string drawn from the error. *)
Definition localized (noValidLeafDetected : option string) (errorMessage : string)
    : string :=
  if includes errorMessage backendLeafMsg
  then or_string noValidLeafDetected backendLeafMsg
  else errorMessage.

(** *** The result view *)

Inductive Block :=
  | NoCropWarning | SummaryBlock | CausesBlock | MedicinesBlock
  | PrecautionsBlock | DisclaimerBlock | ChatPanel.

(** The blocks rendered under [result &&], top to bottom. *)
Definition resultBlocks (result : DiseaseDetectionResult) : list Block :=
  (if negb (isCropDetected result) then [NoCropWarning]
   else
     [SummaryBlock]
     ++ (if negb (isHealthy result) && (0 <? length (causes result))%nat
         then [CausesBlock] else [])
     ++ (if negb (isHealthy result) && (0 <? length (medicines result))%nat
         then [MedicinesBlock] else [])
     ++ (if negb (isHealthy result) && (0 <? length (precautions result))%nat
         then [PrecautionsBlock] else [])
     ++ (if truthy_string (disclaimer result) then [DisclaimerBlock] else []))
  ++ (if isCropDetected result && negb (isHealthy result) then [ChatPanel] else []).

End DetectorView.

(** ** The calendar order of dates *)

Module Calendar.
Import WeatherForecast.

(** A date as one number, year first: for months and days below 100 the
    order of these numbers is the order of the calendar. *)
Definition dateNumber (d : IsoDate) : N := year d * 10000 + month d * 100 + date d.

(** The fields are in the range that [toKey] prints in full. *)
Definition printable (d : IsoDate) : Prop :=
  (year d <= 9999 /\ month d < 100 /\ date d < 100)%N.

End Calendar.

(** ** components/Chat.tsx *)

Module Chat.
Import Js GeminiService.

Record State := {
  messages : list ChatMessage;
  inputValue : string;
  isLoading : bool;
}.

(** White space and line terminators among the code units covered. *)
Definition is_space (c : ascii) : bool :=
  let n := code c in
  ((9 <=? n) && (n <=? 13))%N || (n =? 32)%N || (n =? 160)%N.

Fixpoint trimStart (s : string) : string :=
  match s with
  | EmptyString => EmptyString
  | String c s' => if is_space c then trimStart s' else s
  end.

(** [s.trim()] *)
Definition trim (s : string) : string :=
  String.rev (trimStart (String.rev (trimStart s))).

(** The effect on the analysis result and the language: the greeting alone.
    [chatGreeting] is the entry of the table. *)
Definition greet (chatGreeting : string) (analysisResult : DiseaseDetectionResult)
    (s : State) : State :=
  let greeting := replace chatGreeting "{diseaseName}" (diseaseName analysisResult) in
  {| messages := [{| role := model; text := greeting |}];
     inputValue := inputValue s;
     isLoading := isLoading s |}.

(** [handleSendMessage], through to the end of its [finally]. Every value
    thrown by [sendMessageToChat] is an [Error], so the text shown for a
    failure is its message. *)
Definition handleSendMessage (fetch : Request -> FetchOutcome JSON)
    (API_BASE_URL : string) (t : Translations) (s : State) : State :=
  if negb (truthy_string (trim (inputValue s))) || isLoading s then s
  else
    let userMessage := {| role := user; text := inputValue s |} in
    let newMessages := messages s ++ [userMessage] in
    let history := removelast newMessages in
    let reply :=
      match sendMessageToChat fetch API_BASE_URL (text userMessage) history t with
      | Return modelResponseText => {| role := model; text := modelResponseText |}
      | Throw error => {| role := model; text := message error |}
      end in
    {| messages := newMessages ++ [reply];
       inputValue := EmptyString;
       isLoading := false |}.

End Chat.

(** ** More sample inputs *)

Module Scenario.
Import Js.

(** The camera view open on the sample stream, its track live; another
    track belongs to no stream of the component. *)
Definition filming : DiseaseDetector.State :=
  {| DiseaseDetector.stream := Some Sample.frontStream;
     DiseaseDetector.isCameraOpen := true;
     DiseaseDetector.error := None;
     DiseaseDetector.cameraFacing := DiseaseDetector.environment;
     DiseaseDetector.tracks := {[ 7 := DiseaseDetector.live; 8 := DiseaseDetector.live ]} |}.

(** The same component before the camera is opened. *)
Definition idle : DiseaseDetector.State :=
  {| DiseaseDetector.stream := None;
     DiseaseDetector.isCameraOpen := false;
     DiseaseDetector.error := None;
     DiseaseDetector.cameraFacing := DiseaseDetector.environment;
     DiseaseDetector.tracks := ∅ |}.

(** A device without any camera. *)
Definition noCamera : DiseaseDetector.Navigator :=
  {| DiseaseDetector.mediaDevices := Some
       {| DiseaseDetector.getUserMedia := Some (fun _ =>
            Throw (mkError "NotFoundError" "Requested device not found")) |} |}.

(** [JSON.parse] on the one text the sample needs. *)
Definition parseOnly (v : JSON) : string -> Result JSON :=
  fun text =>
    if String.eqb text (stringify v) then Return v
    else Throw (mkError "SyntaxError" "Unexpected token").

Definition fresh : DetectorView.Detection :=
  {| DetectorView.d_file := Some Sample.leaf;
     DetectorView.d_result := None;
     DetectorView.d_error := None;
     DetectorView.d_loading := false;
     DetectorView.d_retranslating := false |}.

Definition devices : list DetectorView.MediaDeviceInfo :=
  [ {| DetectorView.kind := "audioinput"; DetectorView.device_id := "a1";
       DetectorView.label := "Microphone" |};
    {| DetectorView.kind := "videoinput"; DetectorView.device_id := "v1";
       DetectorView.label := "Front camera" |} ].

Definition talking : Chat.State :=
  {| Chat.messages :=
       [{| GeminiService.role := GeminiService.model;
           GeminiService.text := "Your plant has Late Blight." |}];
     Chat.inputValue := "How do I treat it? ";
     Chat.isLoading := false |}.

End Scenario.

(** * Properties *)

(** ** Strings *)

Module JsFacts.
Import Js.

Lemma append_cons (c : ascii) (a b : string) :
  String c a +:+ b = String c (a +:+ b).
Proof. reflexivity. Qed.

Lemma append_nil (b : string) : EmptyString +:+ b = b.
Proof. reflexivity. Qed.

Lemma startsWith_prefix (s pat : string) :
  startsWith s pat = true <-> exists after, s = pat +:+ after.
Proof.
  revert s. induction pat as [|p pat IH]; intros s; simpl.
  - split; [intros _; by exists s | done].
  - destruct s as [|c s].
    + split; [done | intros [after Heq]; discriminate Heq].
    + rewrite andb_true_iff, IH. split.
      * intros [Hc [after ->]]. apply Ascii.eqb_eq in Hc as ->. by exists after.
      * intros [after Heq]. rewrite append_cons in Heq. injection Heq as -> ->.
        split; [apply Ascii.eqb_refl | by exists after].
Qed.

Lemma includes_occurrence (s pat : string) :
  includes s pat = true <-> exists before after, s = before +:+ pat +:+ after.
Proof.
  induction s as [|c s IH].
  - cbn [includes]. rewrite orb_false_r, startsWith_prefix. split.
    + intros [after ->]. by exists EmptyString, after.
    + intros [[|x before] [after Heq]]; [by exists after | discriminate Heq].
  - cbn [includes]. rewrite orb_true_iff, startsWith_prefix, IH. split.
    + intros [[after ->] | (before & after & ->)].
      * by exists EmptyString, after.
      * by exists (String c before), after.
    + intros ([|x before] & after & Heq).
      * left. by exists after.
      * right. injection Heq as -> ->. by exists before, after.
Qed.

Lemma toLowerCase_append (a b : string) :
  toLowerCase (a +:+ b) = toLowerCase a +:+ toLowerCase b.
Proof.
  induction a as [|x a IH]; [done|].
  rewrite append_cons. simpl. by rewrite IH.
Qed.

(** A split of the lower-cased text is the image of a split of the text. *)
Lemma toLowerCase_split (s a b : string) :
  toLowerCase s = a +:+ b ->
  exists x y, s = x +:+ y /\ toLowerCase x = a /\ toLowerCase y = b.
Proof.
  revert s. induction a as [|c a IH]; intros s Heq.
  - by exists EmptyString, s.
  - destruct s as [|d s]; [discriminate Heq|].
    simpl in Heq. injection Heq as Hd Hs.
    destruct (IH _ Hs) as (x & y & -> & Hx & Hy).
    exists (String d x), y. simpl. by rewrite Hd, Hx, Hy.
Qed.

(** Lower-casing and then searching finds exactly the case-insensitive
    occurrences of a pattern that is its own lower case. *)
Lemma includes_toLowerCase (s pat : string) :
  toLowerCase pat = pat ->
  includes (toLowerCase s) pat = true <->
  exists before found after,
    s = before +:+ found +:+ after /\ toLowerCase found = toLowerCase pat.
Proof.
  intros Hpat. rewrite includes_occurrence, Hpat. split.
  - intros (b & a & Heq).
    destruct (toLowerCase_split _ _ _ Heq) as (x & y & -> & Hx & Hy).
    destruct (toLowerCase_split _ _ _ Hy) as (f & z & -> & Hf & Hz).
    by exists x, f, z.
  - intros (b & f & a & -> & Hf).
    exists (toLowerCase b), (toLowerCase a).
    by rewrite !toLowerCase_append, Hf.
Qed.

End JsFacts.

(** ** The detection result normalizer and the chat adapter *)

Module GeminiServiceFacts.
Import Js GeminiService JsFacts.

Lemma isHealthy_iff (data : BackendDiseaseResponse) (t : Translations) :
  isHealthy (mapBackendResponseToDiseaseResult data t) = true <->
  contains_ignoring_case (predicted_disease (disease_info data)) "healthy".
Proof. by apply includes_toLowerCase. Qed.

Lemma isCropDetected_iff (data : BackendDiseaseResponse) (t : Translations) :
  isCropDetected (mapBackendResponseToDiseaseResult data t) = false <->
  contains_ignoring_case (predicted_disease (disease_info data)) "no crop detected".
Proof.
  unfold mapBackendResponseToDiseaseResult; cbn [isCropDetected].
  rewrite negb_false_iff. by apply includes_toLowerCase.
Qed.

(** A success response goes through the mapping untouched by the [catch]. *)
Lemma detectDisease_success fetch API_BASE_URL file language t status data :
  truthy_string API_BASE_URL = true ->
  fetch (detectRequest API_BASE_URL file language) = Succeeded status (Return data) ->
  detectDisease fetch API_BASE_URL file language t
  = Return (mapBackendResponseToDiseaseResult data t).
Proof.
  intros Hurl Hfetch. unfold detectDisease, detectDisease_try.
  by rewrite Hurl, Hfetch.
Qed.

(** C1. For every detection success response, the result that [detectDisease]
    resolves to has [isHealthy] true exactly when the predicted disease name
    contains "healthy" case-insensitively, and [isCropDetected] false exactly
    when the name contains "no crop detected" case-insensitively; each flag
    follows its own substring only. *)
Theorem detection_flags_follow_name fetch API_BASE_URL file language t status data :
  truthy_string API_BASE_URL = true ->
  fetch (detectRequest API_BASE_URL file language) = Succeeded status (Return data) ->
  exists result,
    detectDisease fetch API_BASE_URL file language t = Return result /\
    diseaseName result = predicted_disease (disease_info data) /\
    (isHealthy result = true <->
       contains_ignoring_case (predicted_disease (disease_info data)) "healthy") /\
    (isCropDetected result = false <->
       contains_ignoring_case (predicted_disease (disease_info data)) "no crop detected").
Proof.
  intros Hurl Hfetch. eexists. split; [by eapply detectDisease_success|].
  split; [done|]. split; [apply isHealthy_iff | apply isCropDetected_iff].
Qed.

(** The mapping of the sample name that matches both patterns: each flag
    follows its own substring. *)
Example both_patterns_both_flags :
  let result := mapBackendResponseToDiseaseResult
                  (Sample.response "No Crop Detected, Healthy") Sample.t in
  isHealthy result = true /\ isCropDetected result = false.
Proof. by vm_compute. Qed.

Lemma detection_flags_follow_name_witness :
  truthy_string Sample.API_BASE_URL = true /\
  exists result,
    detectDisease (Sample.always (Succeeded 200 (Return (Sample.response "Tomato HEALTHY"))))
      Sample.API_BASE_URL Sample.leaf en Sample.t = Return result /\
    diseaseName result = "Tomato HEALTHY" /\
    (isHealthy result = true <-> contains_ignoring_case "Tomato HEALTHY" "healthy") /\
    (isCropDetected result = false <->
       contains_ignoring_case "Tomato HEALTHY" "no crop detected").
Proof.
  split; [reflexivity|].
  apply (detection_flags_follow_name
           (Sample.always (Succeeded 200 (Return (Sample.response "Tomato HEALTHY"))))
           Sample.API_BASE_URL Sample.leaf en Sample.t 200
           (Sample.response "Tomato HEALTHY")); reflexivity.
Defined.

(** *** Error bodies *)

Lemma detailEntry_spec (d : JSON) :
  detailEntry d = if is_string d then toString d else stringify d.
Proof. by destruct d. Qed.

(** On status 400 a truthy [detail] decides the message thrown in the [try]
    block. *)
Lemma detectErrorBody_detail {A} (parsed detail : JSON) :
  get_detail parsed = Some detail ->
  truthy detail = true ->
  detectErrorBody (A := A) 400 parsed = Throw (Error (detailMessage detail)).
Proof.
  intros Hget Htruthy. unfold detectErrorBody.
  assert (truthy parsed = true) as -> by (by destruct parsed).
  rewrite Hget, Htruthy. cbn [Z.eqb Pos.eqb andb].
  destruct detail; try done.
  cbn [detailMessage]. do 3 f_equal.
  apply list_fmap_ext. intros _ d _. apply detailEntry_spec.
Qed.

(** Off status 400, or without a truthy [detail], the whole body is the
    message. *)
Lemma detectErrorBody_other_status {A} (status : Z) (parsed : JSON) :
  status <> 400%Z ->
  detectErrorBody (A := A) status parsed = Throw (Error (stringify parsed)).
Proof.
  intros Hne. unfold detectErrorBody.
  by destruct (Z.eqb_spec status 400).
Qed.

(** An error thrown in the [try] block with a message passes the [catch]
    block unchanged. *)
Lemma detectDisease_catch_rethrows {A} API_BASE_URL t (msg : string) :
  truthy_string msg = true ->
  detectDisease_catch (A := A) API_BASE_URL t (Error msg) = Throw (Error msg).
Proof. intros Hmsg. unfold detectDisease_catch. cbn. by rewrite Hmsg. Qed.

(** C2, as the code has it. For every detection request answered with HTTP
    status 400 and a JSON body whose [detail] field is truthy, the error
    raised by [detectDisease] has the message the specification describes:
    the detail itself when it is a string, the space-separated entries (those
    that are not strings as JSON text) when it is an array, its JSON text
    otherwise; provided that message is not empty. *)
Theorem detail_message_on_400 fetch API_BASE_URL file language t parsed text detail :
  truthy_string API_BASE_URL = true ->
  fetch (detectRequest API_BASE_URL file language) = Failed 400 (Return parsed) text ->
  get_detail parsed = Some detail ->
  truthy detail = true ->
  truthy_string (detailMessage detail) = true ->
  detectDisease fetch API_BASE_URL file language t = Throw (Error (detailMessage detail)).
Proof.
  intros Hurl Hfetch Hget Htruthy Hmsg.
  unfold detectDisease, detectDisease_try. rewrite Hurl, Hfetch.
  cbn [negb try_catch]. rewrite (detectErrorBody_detail _ _ Hget Htruthy).
  by apply detectDisease_catch_rethrows.
Qed.

Lemma detail_message_on_400_witness :
  truthy_string Sample.API_BASE_URL = true /\
  get_detail (Sample.errorBody Sample.validationDetail) = Some Sample.validationDetail /\
  detectDisease
    (Sample.always (Failed 400 (Return (Sample.errorBody Sample.validationDetail))
                      Sample.noText))
    Sample.API_BASE_URL Sample.leaf en Sample.t
  = Throw (Error (stringify (JObj [("loc", JArr [JStr "file"]);
                                   ("msg", JStr "field required")]))).
Proof.
  split; [reflexivity|]. split; [reflexivity|].
  apply (detail_message_on_400
           (Sample.always (Failed 400 (Return (Sample.errorBody Sample.validationDetail))
                             Sample.noText))
           Sample.API_BASE_URL Sample.leaf en Sample.t
           (Sample.errorBody Sample.validationDetail) Sample.noText
           Sample.validationDetail); reflexivity.
Defined.

(** The leaf message of the backend, on status 400, is raised as it is. *)
Example leaf_detail_raised_as_is :
  detectDisease
    (Sample.always (Failed 400 (Return (Sample.errorBody Sample.leafDetail)) Sample.noText))
    Sample.API_BASE_URL Sample.leaf en Sample.t
  = Throw (Error "No valid plant leaf detected. Please upload a clear image of a plant leaf.").
Proof. by vm_compute. Qed.

(** An empty [detail] array on status 400 gives an empty message, which the
    [catch] block replaces by the generic one. *)
Example empty_detail_array_gives_generic_error :
  detectDisease
    (Sample.always (Failed 400 (Return (Sample.errorBody (JArr []))) Sample.noText))
    Sample.API_BASE_URL Sample.leaf en Sample.t
  = Throw (Error (errorApi Sample.t)).
Proof. by vm_compute. Qed.

(** C2, as stated, fails off status 400: a status 422 answer with the body
    [{detail: [...]}] raises the JSON text of the whole body, not the joined
    entries of [detail]. *)
Lemma detail_not_used_off_400 :
  let fetch := Sample.always (Failed 422 (Return (Sample.errorBody Sample.validationDetail))
                                Sample.noText) in
  get_detail (Sample.errorBody Sample.validationDetail) = Some Sample.validationDetail /\
  detectDisease fetch Sample.API_BASE_URL Sample.leaf en Sample.t
  = Throw (Error (stringify (Sample.errorBody Sample.validationDetail))) /\
  detectDisease fetch Sample.API_BASE_URL Sample.leaf en Sample.t
  <> Throw (Error (detailMessage Sample.validationDetail)).
Proof. by vm_compute. Qed.

(** *** The chat reply *)

(** A success body whose first value is a string resolves to it. *)
Lemma chatReply_first_string (key reply : string) (rest : list (string * JSON)) :
  chatReply (JObj ((key, JStr reply) :: rest)) = Return reply.
Proof. reflexivity. Qed.

(** An object without a string value has no first string value either, and
    the [try] block throws the format error for it. *)
Lemma chatReply_no_string (props : list (string * JSON)) :
  firstStringValue (snd <$> props) = None ->
  chatReply (JObj props) = Throw (Error "Unexpected chat response format from backend.").
Proof.
  unfold chatReply. cbn [Object_values].
  destruct props as [|[k v] rest]; [done|].
  by destruct v.
Qed.

(** Whatever error the [try] block throws, the [catch] block of
    [sendMessageToChat] throws one of its own two errors in its place. *)
Lemma sendMessageToChat_catch_masks {A} API_BASE_URL t (error : JsError) :
  sendMessageToChat_catch (A := A) API_BASE_URL t error = Throw (Error (chatError t)) \/
  sendMessageToChat_catch (A := A) API_BASE_URL t error
  = Throw (Error (replace (errorApiConnection t) "{url}" API_BASE_URL)).
Proof. unfold sendMessageToChat_catch. destruct (_ && _); auto. Qed.

(** C3, as the code has it. For every chat success response object whose
    first property value is a string, [sendMessageToChat] resolves to that
    value. *)
Theorem chat_reply_is_first_value fetch API_BASE_URL message history t status key reply rest :
  truthy_string API_BASE_URL = true ->
  fetch (chatRequest API_BASE_URL message history)
  = Succeeded status (Return (JObj ((key, JStr reply) :: rest))) ->
  sendMessageToChat fetch API_BASE_URL message history t = Return reply.
Proof.
  intros Hurl Hfetch. unfold sendMessageToChat, sendMessageToChat_try.
  by rewrite Hurl, Hfetch.
Qed.

Lemma chat_reply_is_first_value_witness :
  truthy_string Sample.API_BASE_URL = true /\
  sendMessageToChat
    (Sample.always (Succeeded 200 (Return (JObj [("reply", JStr "Apply fungicide weekly")]))))
    Sample.API_BASE_URL "How do I treat it?"
    [{| role := model; text := "Your plant has Late Blight." |}] Sample.t
  = Return "Apply fungicide weekly".
Proof.
  split; [reflexivity|].
  apply (chat_reply_is_first_value
           (Sample.always
              (Succeeded 200 (Return (JObj [("reply", JStr "Apply fungicide weekly")]))))
           Sample.API_BASE_URL "How do I treat it?"
           [{| role := model; text := "Your plant has Late Blight." |}] Sample.t
           200 "reply" "Apply fungicide weekly" []); reflexivity.
Defined.

(** C3, as stated, fails when a value that is not a string comes first: the
    first string value of [{ok: true, reply: "Apply fungicide weekly"}] is
    the reply, and [sendMessageToChat] rejects. *)
Lemma chat_reply_not_searched :
  let data := JObj [("ok", JBool true); ("reply", JStr "Apply fungicide weekly")] in
  (firstStringValue <$> Object_values data) = Some (Some "Apply fungicide weekly") /\
  sendMessageToChat (Sample.always (Succeeded 200 (Return data)))
    Sample.API_BASE_URL "How do I treat it?" [] Sample.t
  = Throw (Error (chatError Sample.t)).
Proof. by vm_compute. Qed.

(** C4, as the code has it. For every chat success response object without
    a string value, the [try] block throws the format error, and the [catch]
    block of the same function replaces it: the error that reaches the caller
    is the generic chat error of the translation table. *)
Theorem chat_format_error_replaced fetch API_BASE_URL message history t status props :
  truthy_string API_BASE_URL = true ->
  fetch (chatRequest API_BASE_URL message history) = Succeeded status (Return (JObj props)) ->
  firstStringValue (snd <$> props) = None ->
  sendMessageToChat_try fetch API_BASE_URL message history
  = Throw (Error "Unexpected chat response format from backend.") /\
  sendMessageToChat fetch API_BASE_URL message history t = Throw (Error (chatError t)).
Proof.
  intros Hurl Hfetch Hnone.
  assert (sendMessageToChat_try fetch API_BASE_URL message history
          = Throw (Error "Unexpected chat response format from backend.")) as Htry.
  { unfold sendMessageToChat_try. rewrite Hfetch. cbn [bind].
    by apply chatReply_no_string. }
  split; [done|].
  unfold sendMessageToChat. by rewrite Hurl, Htry.
Qed.

Lemma chat_format_error_replaced_witness :
  truthy_string Sample.API_BASE_URL = true /\
  firstStringValue (snd <$> [("reply", JNum 42)]) = None /\
  sendMessageToChat_try (Sample.always (Succeeded 200 (Return (JObj [("reply", JNum 42)]))))
    Sample.API_BASE_URL "How do I treat it?" []
  = Throw (Error "Unexpected chat response format from backend.") /\
  sendMessageToChat (Sample.always (Succeeded 200 (Return (JObj [("reply", JNum 42)]))))
    Sample.API_BASE_URL "How do I treat it?" [] Sample.t
  = Throw (Error (chatError Sample.t)).
Proof.
  split; [reflexivity|]. split; [reflexivity|].
  apply (chat_format_error_replaced
           (Sample.always (Succeeded 200 (Return (JObj [("reply", JNum 42)]))))
           Sample.API_BASE_URL "How do I treat it?" [] Sample.t 200
           [("reply", JNum 42)]); reflexivity.
Defined.

(** C4, as stated, fails at the response [{reply: 42}], which has no string
    value: the error that reaches the caller is not the format error. *)
Lemma chat_format_error_not_surfaced :
  let fetch := Sample.always (Succeeded 200 (Return (JObj [("reply", JNum 42)]))) in
  firstStringValue (snd <$> [("reply", JNum 42)]) = None /\
  sendMessageToChat fetch Sample.API_BASE_URL "How do I treat it?" [] Sample.t
  = Throw (Error (chatError Sample.t)) /\
  sendMessageToChat fetch Sample.API_BASE_URL "How do I treat it?" [] Sample.t
  <> Throw (Error "Unexpected chat response format from backend.").
Proof. by vm_compute. Qed.

End GeminiServiceFacts.

(** ** The forecast reconciler *)

Module WeatherForecastFacts.
Import Js WeatherForecast JsFacts.

(** *** Keys *)

Lemma inherited_key_head (k : string) :
  k ∈ Object_prototype_keys -> exists c r, k = String c r /\ (64 < code c)%N.
Proof.
  unfold Object_prototype_keys. intros Hin.
  repeat (apply elem_of_cons in Hin as [-> | Hin];
          [eexists _, _; split; [reflexivity | by vm_compute] |]).
  by apply elem_of_nil in Hin.
Qed.

Lemma low_head_plain (c : ascii) (r : string) :
  (code c < 64)%N -> plain_key (String c r).
Proof.
  intros Hc. split; [done|].
  intros (c' & r' & Heq & Hc')%inherited_key_head.
  injection Heq as -> ->. lia.
Qed.

Lemma code_digit (n : N) : code (digit n) = (48 + n mod 10)%N.
Proof.
  unfold code, digit. apply N_ascii_embedding.
  pose proof (N.mod_upper_bound n 10). lia.
Qed.

Lemma toKey_plain (d : IsoDate) : plain_key (toKey d).
Proof.
  unfold toKey. destruct (year d <=? 9999)%N.
  - unfold digits4. rewrite append_cons. apply low_head_plain.
    rewrite code_digit. pose proof (N.mod_upper_bound (year d / 1000) 10). lia.
  - rewrite append_cons. apply low_head_plain. by vm_compute.
Qed.

Lemma date_key_plain (k : string) : is_date_key k = true -> plain_key k.
Proof.
  destruct k as [|c r]; [done|]. intros Hk. apply low_head_plain.
  assert (is_digit c = true) as Hc.
  { destruct r as [|y2 [|y3 [|y4 [|h1 [|m1 [|m2 [|h2 [|d1 [|d2 [|]]]]]]]]]];
      try done.
    cbn [is_date_key] in Hk. by do 9 (apply andb_prop in Hk as [Hk _]). }
  unfold is_digit in Hc. apply andb_prop in Hc as [_ Hc%N.leb_le]. lia.
Qed.

Lemma well_formed_plain (item : ForecastItem) :
  well_formed item = true -> plain_key (dateOf item).
Proof. intros [H _]%andb_prop. by apply date_key_plain. Qed.

Lemma well_formed_weather (item : ForecastItem) :
  well_formed item = true -> exists w ws, weather item = w :: ws.
Proof. intros [_ H]%andb_prop. destruct (weather item); [done | eauto]. Qed.

Lemma read_plain (m : gmap string ForecastItem) (k : string) :
  plain_key k -> read m k = from_option Item Null (m !! k).
Proof.
  intros [_ Hk]. unfold read. destruct (m !! k); [done|].
  by rewrite bool_decide_eq_false_2.
Qed.

(** *** Grouping *)

Lemma storeFirst_plain (m : gmap string ForecastItem) (item : ForecastItem) :
  plain_key (dateOf item) ->
  storeFirst m item = match m !! dateOf item with
                      | Some _ => m
                      | None => <[dateOf item := item]> m
                      end.
Proof.
  intros Hk. unfold storeFirst. rewrite (read_plain _ _ Hk).
  by destruct (m !! dateOf item).
Qed.

Lemma foldl_storeFirst_lookup (data_list : list ForecastItem) :
  Forall (fun item => plain_key (dateOf item)) data_list ->
  forall (m : gmap string ForecastItem) (k : string),
    foldl storeFirst m data_list !! k
    = match m !! k with
      | Some item => Some item
      | None => firstOf data_list k
      end.
Proof.
  induction 1 as [|item l Hk _ IH]; intros m k; simpl.
  - by destruct (m !! k).
  - rewrite IH, (storeFirst_plain _ _ Hk). unfold firstOf at 2. cbn [List.find].
    fold (firstOf l k).
    destruct (String.eqb_spec (dateOf item) k) as [<- | Hne].
    + destruct (m !! dateOf item) eqn:Hm; [by rewrite Hm|].
      by rewrite lookup_insert_eq.
    + destruct (m !! dateOf item) eqn:Hm; [done|].
      by rewrite lookup_insert_ne.
Qed.

Lemma Forall_well_formed (data_list : list ForecastItem) :
  forallb well_formed data_list = true ->
  Forall (fun item => well_formed item = true) data_list.
Proof.
  intros H. apply Forall_forall. intros x Hx%list_elem_of_In.
  by apply (proj1 (forallb_forall _ _) H).
Qed.

(** The grouped entry of a date is the first entry of the list for it. *)
Lemma groupByDate_lookup (data_list : list ForecastItem) (k : string) :
  forallb well_formed data_list = true ->
  groupByDate data_list !! k = firstOf data_list k.
Proof.
  intros Hwf%Forall_well_formed. unfold groupByDate.
  rewrite foldl_storeFirst_lookup, ?lookup_empty; [done|].
  eapply Forall_impl; [exact Hwf|]. intros item. apply well_formed_plain.
Qed.

Lemma firstOf_Some (data_list : list ForecastItem) (k : string) (item : ForecastItem) :
  firstOf data_list k = Some item -> item ∈ data_list /\ dateOf item = k.
Proof.
  intros [Hin Heq]%find_some. split; [by apply list_elem_of_In|].
  by apply String.eqb_eq.
Qed.

Lemma firstOf_is_Some (data_list : list ForecastItem) (k : string) :
  is_Some (firstOf data_list k) <-> k ∈ dateOf <$> data_list.
Proof.
  split.
  - intros [item [Hin <-]%firstOf_Some]. by apply list_elem_of_fmap_2.
  - intros (item & -> & Hin)%list_elem_of_fmap.
    destruct (firstOf data_list (dateOf item)) eqn:Hf; [done|]. exfalso.
    apply list_elem_of_In in Hin.
    pose proof (find_none _ _ Hf _ Hin) as Hno. cbn in Hno.
    by rewrite String.eqb_refl in Hno.
Qed.

Lemma grouped_item_well_formed (data_list : list ForecastItem) k item :
  forallb well_formed data_list = true ->
  groupByDate data_list !! k = Some item ->
  item ∈ data_list /\ dateOf item = k /\ well_formed item = true.
Proof.
  intros Hwf Hk. rewrite groupByDate_lookup in Hk by done.
  apply firstOf_Some in Hk as [Hin Hd]. repeat split; [done..|].
  apply Forall_well_formed in Hwf. by eapply Forall_forall in Hwf.
Qed.

(** *** The sorted keys and the searches over them *)

Lemma sortedKeys_elem (m : gmap string ForecastItem) (k : string) :
  k ∈ sortedKeys m <-> is_Some (m !! k).
Proof.
  unfold sortedKeys. rewrite merge_sort_Permutation, list_elem_of_fmap. split.
  - intros ([k' v] & -> & Hin). apply elem_of_map_to_list in Hin. by exists v.
  - intros [v Hv]. exists (k, v). split; [done|]. by apply elem_of_map_to_list.
Qed.

Lemma sortedKeys_sorted (m : gmap string ForecastItem) :
  StronglySorted String.le (sortedKeys m).
Proof. apply StronglySorted_merge_sort; apply _. Qed.

(** On a sorted list, [find] gives the least element that passes. *)
Lemma find_least (p : string -> bool) (l : list string) (k : string) :
  StronglySorted String.le l ->
  List.find p l = Some k ->
  k ∈ l /\ p k = true /\ forall k', k' ∈ l -> p k' = true -> String.le k k'.
Proof.
  induction 1 as [|x l Hsorted IH Hx]; [done|]. cbn [List.find].
  destruct (p x) eqn:Hpx.
  - intros [= <-]. split; [by left|]. split; [done|].
    intros k' [-> | Hin]%elem_of_cons _; [done|].
    by eapply Forall_forall in Hx.
  - intros Hfind. destruct (IH Hfind) as (Hin & Hpk & Hleast).
    split; [by right|]. split; [done|].
    intros k' [-> | Hin']%elem_of_cons Hpk'; [congruence | by apply Hleast].
Qed.

Lemma find_nothing (p : string -> bool) (l : list string) :
  List.find p l = None -> forall k, k ∈ l -> p k = false.
Proof. intros Hfind k Hin%list_elem_of_In. by eapply find_none in Hfind. Qed.

Lemma truthy_string_nonempty (k : string) : k <> EmptyString -> truthy_string k = true.
Proof. by destruct k. Qed.

(** When no key is empty the test [if (key)] after [find] always passes. *)
Lemma findTruthy_find (p : string -> bool) (l : list string) :
  (forall k, k ∈ l -> k <> EmptyString) ->
  findTruthy p l = List.find p l.
Proof.
  intros Hne. unfold findTruthy. destruct (List.find p l) as [k|] eqn:Hfind; [|done].
  apply find_some in Hfind as [Hin%list_elem_of_In _].
  by rewrite truthy_string_nonempty by auto.
Qed.

Lemma later_unused_true (used : gset string) (tk k : string) :
  String.leb tk k && negb (bool_decide (k ∈ used)) = true <-> String.le tk k /\ k ∉ used.
Proof.
  rewrite andb_true_iff, negb_true_iff, bool_decide_eq_false.
  unfold String.le. by rewrite Is_true_true.
Qed.

Lemma unused_true (used : gset string) (k : string) :
  negb (bool_decide (k ∈ used)) = true <-> k ∉ used.
Proof. by rewrite negb_true_iff, bool_decide_eq_false. Qed.

(** *** One turn of the loop follows the rule of selection *)

Section pickOne.
Context (m : gmap string ForecastItem).
Hypothesis keys_plain : forall k, is_Some (m !! k) -> plain_key k.

Lemma sortedKeys_nonempty (k : string) : k ∈ sortedKeys m -> k <> EmptyString.
Proof. intros Hin%sortedKeys_elem. by apply keys_plain. Qed.

Lemma slot_Some (k : string) (item : ForecastItem) :
  m !! k = Some item -> slot m (Some k) = Item item.
Proof.
  intros Hk. cbn [slot]. rewrite read_plain, Hk; [done|]. apply keys_plain; eauto.
Qed.

Lemma pickOne_chooses (picked : list Picked) (used : gset string) (tk : string) :
  plain_key tk ->
  exists key,
    pickOne m (sortedKeys m) (picked, used) tk
    = (picked ++ [slot m key], used ∪ keySet key) /\
    chooses m used tk key.
Proof.
  intros Htk. unfold pickOne. rewrite (read_plain _ _ Htk).
  destruct (truthy_picked (from_option Item Null (m !! tk))
            && negb (bool_decide (tk ∈ used))) eqn:Hexact.
  { exists (Some tk). split; [by rewrite <-(read_plain _ _ Htk)|].
    apply andb_prop in Hexact as [Hsome Hunused%unused_true].
    split; [|by left]. split; [|done]. by destruct (m !! tk). }
  assert (~ available m used tk) as Hnot.
  { intros [[item Hsome] Hunused]. rewrite Hsome in Hexact. cbn in Hexact.
    apply unused_true in Hunused. congruence. }
  rewrite !findTruthy_find by apply sortedKeys_nonempty.
  destruct (List.find _ (sortedKeys m)) as [candidateKey|] eqn:Hcandidate.
  { exists (Some candidateKey). split; [done|].
    apply find_least in Hcandidate as (Hin & [Hle Hun]%later_unused_true & Hleast);
      [|apply sortedKeys_sorted].
    apply sortedKeys_elem in Hin. split; [done|]. right; left.
    split; [done|]. split; [done|].
    intros k' [Hk' Hun'] Hle'. apply Hleast; [by apply sortedKeys_elem|].
    by apply later_unused_true. }
  assert (forall k', available m used k' -> ~ String.le tk k') as Hnolater.
  { intros k' [Hk' Hun'] Hle'.
    pose proof (find_nothing _ _ Hcandidate k' (proj2 (sortedKeys_elem _ _) Hk')) as Hfalse.
    cbn beta in Hfalse. by rewrite (proj2 (later_unused_true _ _ _)) in Hfalse. }
  destruct (List.find (fun k => negb (bool_decide (k ∈ used))) (sortedKeys m))
    as [anyKey|] eqn:Hany.
  { exists (Some anyKey). split; [done|].
    apply find_least in Hany as (Hin & Hun%unused_true & Hleast);
      [|apply sortedKeys_sorted].
    apply sortedKeys_elem in Hin. split; [done|]. right; right.
    split; [done|]. split; [done|].
    intros k' [Hk' Hun']. apply Hleast; [by apply sortedKeys_elem|].
    by apply unused_true. }
  exists None. split; [cbn [keySet slot]; by rewrite (right_id_L ∅ (∪))|].
  intros k' [Hk' Hun'].
  pose proof (find_nothing _ _ Hany k' (proj2 (sortedKeys_elem _ _) Hk')) as Hfalse.
  cbn beta in Hfalse. by rewrite (proj2 (unused_true _ _)) in Hfalse.
Qed.

(** The loop as a whole. *)
Lemma foldl_pickOne_Picks (targetKeys : list string) :
  Forall plain_key targetKeys ->
  forall (picked : list Picked) (used : gset string),
  exists keys used',
    foldl (pickOne m (sortedKeys m)) (picked, used) targetKeys
    = (picked ++ (slot m <$> keys), used') /\
    Picks m used targetKeys keys.
Proof.
  induction 1 as [|tk tks Htk _ IH]; intros picked used.
  - exists [], used. split; [by rewrite app_nil_r | constructor].
  - destruct (pickOne_chooses picked used tk Htk) as (key & Hone & Hchooses).
    destruct (IH (picked ++ [slot m key]) (used ∪ keySet key))
      as (keys & used' & Hfold & Hpicks).
    exists (key :: keys), used'. split; [|by constructor].
    cbn [foldl]. rewrite Hone, Hfold. by rewrite <-app_assoc.
Qed.

Lemma pick_Picks (targetKeys : list string) :
  Forall plain_key targetKeys ->
  exists keys,
    (pick m targetKeys).1 = slot m <$> keys /\ Picks m ∅ targetKeys keys.
Proof.
  intros Htks. unfold pick.
  destruct (foldl_pickOne_Picks targetKeys Htks [] ∅) as (keys & used' & -> & Hpicks).
  by exists keys.
Qed.
End pickOne.

(** *** What the rule of selection implies along the slots *)

Lemma Picks_length m used tks keys :
  Picks m used tks keys -> length keys = length tks.
Proof. induction 1; simpl; congruence. Qed.

Lemma chooses_available m used tk k :
  chooses m used tk (Some k) -> available m used k.
Proof. by intros [H _]. Qed.

Lemma Picks_available m used tks keys :
  Picks m used tks keys ->
  forall k, Some k ∈ keys -> is_Some (m !! k) /\ k ∉ used.
Proof.
  induction 1 as [|used tk tks key keys Hchooses _ IH]; intros k Hin.
  - by apply elem_of_nil in Hin.
  - apply elem_of_cons in Hin as [<- | Hin].
    + by apply chooses_available in Hchooses.
    + destruct (IH k Hin) as [Hsome Hun]. split; [done|].
      intros Hused. apply Hun. by apply elem_of_union_l.
Qed.

(** No grouped date is chosen twice. *)
Lemma Picks_NoDup m used tks keys :
  Picks m used tks keys -> NoDup (omap id keys).
Proof.
  induction 1 as [|used tk tks key keys Hchooses Hpicks IH]; [constructor|].
  destruct key as [k|]; cbn; [|done].
  constructor; [|done].
  intros (key & Hin & Hkey)%list_elem_of_omap. cbn in Hkey. subst key.
  destruct (Picks_available _ _ _ _ Hpicks k Hin) as [_ Hun].
  apply Hun. apply elem_of_union_r. cbn [keySet]. by apply elem_of_singleton.
Qed.

(** A slot stays empty only when every grouped date is already taken. *)
Lemma Picks_None m used tks keys i :
  Picks m used tks keys ->
  keys !! i = Some None ->
  forall k, is_Some (m !! k) -> k ∈ used \/ Some k ∈ take i keys.
Proof.
  intros Hpicks. revert i.
  induction Hpicks as [|used tk tks key keys Hchooses _ IH]; intros i Hi k Hk; [done|].
  destruct i as [|i].
  - injection Hi as ->. left.
    destruct (decide (k ∈ used)) as [|Hun]; [done|]. by destruct (Hchooses k).
  - destruct (IH i Hi k Hk) as [Hused | Hin].
    + apply elem_of_union in Hused as [Hused | Hkey]; [by left|].
      right. destruct key as [k'|]; cbn in Hkey; [|set_solver].
      apply elem_of_singleton in Hkey as ->. by left.
    + right. by right.
Qed.

(** *** From the chosen keys to the entries shown *)

Lemma formatItem_Null t language clock (idx : nat) :
  (idx < 3)%nat ->
  formatItem t language clock idx Null = Return (placeholder (label t language clock idx)).
Proof. intros Hidx. by destruct idx as [|[|[|idx]]]; [..|lia]. Qed.

Lemma formatItem_Item t language clock (idx : nat) item w ws :
  (idx < 3)%nat ->
  weather item = w :: ws ->
  formatItem t language clock idx (Item item)
  = Return (shown (label t language clock idx) item w).
Proof.
  intros Hidx Hw. unfold formatItem. rewrite Hw.
  by destruct idx as [|[|[|idx]]]; [..|lia].
Qed.

Section shown.
Context (t : Translations) (language : Language) (clock : Clock).
Context (data_list : list ForecastItem).
Hypothesis Hwf : forallb well_formed data_list = true.

Lemma grouped_keys_plain (k : string) :
  is_Some (groupByDate data_list !! k) -> plain_key k.
Proof.
  intros [item Hk]. destruct (grouped_item_well_formed _ _ _ Hwf Hk) as (_ & <- & Hitem).
  by apply well_formed_plain.
Qed.

Lemma grouped_iff_dated (k : string) :
  is_Some (groupByDate data_list !! k) <-> k ∈ dateOf <$> data_list.
Proof. rewrite groupByDate_lookup by done. apply firstOf_is_Some. Qed.

Lemma formatItem_slot (idx : nat) (key : option string) :
  (idx < 3)%nat ->
  (forall k, key = Some k -> is_Some (groupByDate data_list !! k)) ->
  exists e,
    formatItem t language clock idx (slot (groupByDate data_list) key) = Return e /\
    shows data_list (label t language clock idx) key e.
Proof.
  intros Hidx Hkey. destruct key as [k|].
  - destruct (Hkey k eq_refl) as [item Hk].
    destruct (grouped_item_well_formed _ _ _ Hwf Hk) as (_ & _ & Hitem).
    destruct (well_formed_weather _ Hitem) as (w & ws & Hw).
    exists (shown (label t language clock idx) item w). split.
    + rewrite (slot_Some _ grouped_keys_plain _ _ Hk). by eapply formatItem_Item.
    + exists item, w, ws. by rewrite <-groupByDate_lookup.
  - exists (placeholder (label t language clock idx)).
    split; [by apply formatItem_Null | done].
Qed.

(** The reconciler returns three entries, one per target key, each shown
    for the key that the rule of selection chooses for its slot. *)
Lemma reconcile_Picks :
  exists k0 k1 k2 e0 e1 e2,
    Picks (groupByDate data_list) ∅ (toKey <$> dayDates clock) [k0; k1; k2] /\
    reconcile t language clock data_list = Return [e0; e1; e2] /\
    shows data_list (today t) k0 e0 /\
    shows data_list (tomorrow t) k1 e1 /\
    shows data_list (thirdLabel t language clock) k2 e2.
Proof.
  destruct (pick_Picks _ grouped_keys_plain (toKey <$> dayDates clock))
    as (keys & Hpicked & Hpicks).
  { repeat constructor; apply toKey_plain. }
  pose proof (Picks_length _ _ _ _ Hpicks) as Hlen.
  destruct keys as [|k0 [|k1 [|k2 [|]]]]; try done.
  assert (forall key, key ∈ [k0; k1; k2] ->
            forall k, key = Some k -> is_Some (groupByDate data_list !! k)) as Hsome.
  { intros key Hin k ->. by destruct (Picks_available _ _ _ _ Hpicks k Hin). }
  destruct (formatItem_slot 0 k0) as (e0 & Hf0 & Hs0); [lia | apply Hsome; set_solver |].
  destruct (formatItem_slot 1 k1) as (e1 & Hf1 & Hs1); [lia | apply Hsome; set_solver |].
  destruct (formatItem_slot 2 k2) as (e2 & Hf2 & Hs2); [lia | apply Hsome; set_solver |].
  exists k0, k1, k2, e0, e1, e2. split; [done|]. split; [|done].
  unfold reconcile. rewrite Hpicked. cbn [fmap list_fmap mapFrom].
  by rewrite Hf0, Hf1, Hf2.
Qed.
End shown.

Lemma shows_day data_list dayLabel key e : shows data_list dayLabel key e -> day e = dayLabel.
Proof. destruct key; [by intros (? & ? & ? & _ & _ & ->) | by intros ->]. Qed.

Lemma fetchWeatherData_success fetch WEATHER_API_KEY t language clock latitude longitude
    status data_list formattedData s :
  truthy_string WEATHER_API_KEY = true ->
  fetch {| lat := latitude; lon := longitude; appid := WEATHER_API_KEY;
           units := "metric"; lang := language |}
  = Succeeded status (Return data_list) ->
  reconcile t language clock data_list = Return formattedData ->
  fetchWeatherData fetch WEATHER_API_KEY t language clock latitude longitude s
  = {| weatherData := formattedData; loading := false; error := None |}.
Proof.
  intros Hkey Hfetch Hrec. unfold fetchWeatherData, fetchWeatherData_try.
  by rewrite Hkey, Hfetch; cbn [negb bind]; rewrite Hrec.
Qed.

(** The third label is the table's own whenever the table has one. *)
Lemma thirdLabel_present t language clock (dayLabel : string) :
  dayAfterTomorrow t = Some dayLabel ->
  dayLabel <> EmptyString ->
  thirdLabel t language clock = dayLabel.
Proof.
  intros Hsome Hne. unfold thirdLabel, or_string.
  by rewrite Hsome, truthy_string_nonempty.
Qed.

(** *** The properties of the specification *)

(** C7. For the empty raw forecast list the reconciler returns exactly three
    placeholder entries, labelled for today, tomorrow and the day after, each
    with temperature 0, an empty condition and the default icon code; the
    component ends with these entries and without an error. *)
Theorem empty_list_gives_placeholders (t : Translations) (language : Language)
    (clock : Clock) :
  reconcile t language clock []
  = Return [ {| day := today t; temp := 0; condition := EmptyString; info_icon := "01d" |};
             {| day := tomorrow t; temp := 0; condition := EmptyString; info_icon := "01d" |};
             {| day := thirdLabel t language clock; temp := 0; condition := EmptyString;
                info_icon := "01d" |} ] /\
  forall status c key latitude longitude s,
    fetchWeatherData (fun _ => Succeeded status (Return [])) (String c key)
      t language clock latitude longitude s
    = {| weatherData := [placeholder (today t); placeholder (tomorrow t);
                         placeholder (thirdLabel t language clock)];
         loading := false; error := None |}.
Proof.
  assert (reconcile t language clock []
          = Return [placeholder (today t); placeholder (tomorrow t);
                    placeholder (thirdLabel t language clock)]) as Hrec.
  { destruct (reconcile_Picks t language clock [] eq_refl)
      as (k0 & k1 & k2 & e0 & e1 & e2 & _ & -> & H0 & H1 & H2).
    destruct k0 as [k|]; [by destruct H0 as (? & ? & ? & ? & _)|].
    destruct k1 as [k|]; [by destruct H1 as (? & ? & ? & ? & _)|].
    destruct k2 as [k|]; [by destruct H2 as (? & ? & ? & ? & _)|].
    cbn in H0, H1, H2. by subst. }
  split; [exact Hrec|].
  intros status c key latitude longitude s.
  by eapply fetchWeatherData_success.
Qed.

(** C5. For every raw forecast list of well-formed entries that spans at
    least three distinct calendar dates, today's among them, the reconciler
    returns exactly three entries, labelled today, tomorrow and day after
    tomorrow in that order; the first is the first entry of today and the
    other two are entries of the list as well. *)
Theorem three_dates_give_three_days (t : Translations) (language : Language)
    (clock : Clock) (data_list : list ForecastItem) (d1 d2 : string) :
  forallb well_formed data_list = true ->
  toKey (clock_today clock) ∈ dateOf <$> data_list ->
  d1 ∈ dateOf <$> data_list ->
  d2 ∈ dateOf <$> data_list ->
  d1 <> toKey (clock_today clock) ->
  d2 <> toKey (clock_today clock) ->
  d1 <> d2 ->
  exists e0 e1 e2 k1 k2,
    reconcile t language clock data_list = Return [e0; e1; e2] /\
    day e0 = today t /\ day e1 = tomorrow t /\ day e2 = thirdLabel t language clock /\
    shows data_list (today t) (Some (toKey (clock_today clock))) e0 /\
    shows data_list (tomorrow t) (Some k1) e1 /\
    shows data_list (thirdLabel t language clock) (Some k2) e2.
Proof.
  intros Hwf Htoday Hd1 Hd2 Hne1 Hne2 Hne.
  destruct (reconcile_Picks t language clock data_list Hwf)
    as (k0 & k1 & k2 & e0 & e1 & e2 & Hpicks & Hrec & H0 & H1 & H2).
  apply (grouped_iff_dated _ Hwf) in Htoday, Hd1, Hd2.
  inversion Hpicks as [|? ? ? ? ? Hc0 Hpicks1]; subst.
  inversion Hpicks1 as [|? ? ? ? ? Hc1 Hpicks2]; subst.
  inversion Hpicks2 as [|? ? ? ? ? Hc2 _]; subst.
  assert (k0 = Some (toKey (clock_today clock))) as ->.
  { assert (available (groupByDate data_list) ∅ (toKey (clock_today clock))) as Hav
      by (split; [done | set_solver]).
    destruct k0 as [k|]; [|by destruct (Hc0 _ Hav)].
    destruct Hc0 as [_ [-> | [[Hnot _] | [Hnot _]]]]; done. }
  cbn [keySet] in Hc1, Hc2.
  destruct k1 as [k1|]; last first.
  { destruct (Hc1 d1). split; [done | set_solver]. }
  destruct k2 as [k2|]; last first.
  { cbn [keySet] in Hc2.
    destruct (decide (k1 = d1)) as [-> | Hk1].
    - destruct (Hc2 d2). split; [done | set_solver].
    - destruct (Hc2 d1). split; [done | set_solver]. }
  exists e0, e1, e2, k1, k2.
  repeat split; try done; by eapply shows_day.
Qed.

Lemma three_dates_give_three_days_witness :
  exists e0 e1 e2 k1 k2,
    reconcile Sample.t en Sample.clock Sample.fromToday = Return [e0; e1; e2] /\
    day e0 = today Sample.t /\ day e1 = tomorrow Sample.t /\
    day e2 = thirdLabel Sample.t en Sample.clock /\
    shows Sample.fromToday (today Sample.t) (Some (toKey (clock_today Sample.clock))) e0 /\
    shows Sample.fromToday (tomorrow Sample.t) (Some k1) e1 /\
    shows Sample.fromToday (thirdLabel Sample.t en Sample.clock) (Some k2) e2.
Proof.
  apply (three_dates_give_three_days Sample.t en Sample.clock Sample.fromToday
           "2026-11-02" "2026-11-03");
    [reflexivity | vm_compute; set_solver.. | done | done | done].
Defined.

(** C6. For every non-empty raw forecast list of well-formed entries in which
    today's date is absent, the reconciler returns, and the slot for today
    shows the first entry of a date [k] of the list: the least date that is
    not before today's key when there is one, and otherwise, no date of the
    list being that late, the least date of the list. *)
Theorem missing_today_takes_next_date (t : Translations) (language : Language)
    (clock : Clock) (data_list : list ForecastItem) :
  forallb well_formed data_list = true ->
  data_list <> [] ->
  toKey (clock_today clock) ∉ dateOf <$> data_list ->
  exists k item w ws e1 e2,
    firstOf data_list k = Some item /\ weather item = w :: ws /\
    reconcile t language clock data_list = Return [shown (today t) item w; e1; e2] /\
    ((String.le (toKey (clock_today clock)) k /\
      forall k', k' ∈ dateOf <$> data_list ->
                 String.le (toKey (clock_today clock)) k' -> String.le k k') \/
     ((forall k', k' ∈ dateOf <$> data_list -> ~ String.le (toKey (clock_today clock)) k') /\
      forall k', k' ∈ dateOf <$> data_list -> String.le k k')).
Proof.
  intros Hwf Hne Habsent.
  destruct (reconcile_Picks t language clock data_list Hwf)
    as (k0 & k1 & k2 & e0 & e1 & e2 & Hpicks & Hrec & H0 & _).
  inversion Hpicks as [|? ? ? ? ? Hc0 _]; subst.
  assert (forall k', available (groupByDate data_list) ∅ k' <-> k' ∈ dateOf <$> data_list)
    as Hav.
  { intros k'. unfold available. rewrite (grouped_iff_dated _ Hwf). set_solver. }
  destruct k0 as [k|]; last first.
  { destruct data_list as [|item l]; [done|].
    destruct (Hc0 (dateOf item)). apply Hav. by left. }
  destruct H0 as (item & w & ws & Hfirst & Hw & ->).
  exists k, item, w, ws, e1, e2. do 3 (split; [done|]).
  destruct Hc0 as [Hk [-> | [(_ & Hle & Hleast) | (_ & Hnone & Hleast)]]].
  - by apply Hav in Hk.
  - left. split; [done|]. intros k' Hk'. by apply Hleast, Hav.
  - right. split; intros k' Hk'; [by apply Hnone, Hav | by apply Hleast, Hav].
Qed.

Lemma missing_today_takes_next_date_witness :
  exists k item w ws e1 e2,
    firstOf Sample.withoutToday k = Some item /\ weather item = w :: ws /\
    reconcile Sample.t en Sample.clock Sample.withoutToday
    = Return [shown (today Sample.t) item w; e1; e2] /\
    ((String.le (toKey (clock_today Sample.clock)) k /\
      forall k', k' ∈ dateOf <$> Sample.withoutToday ->
                 String.le (toKey (clock_today Sample.clock)) k' -> String.le k k') \/
     ((forall k', k' ∈ dateOf <$> Sample.withoutToday ->
                  ~ String.le (toKey (clock_today Sample.clock)) k') /\
      forall k', k' ∈ dateOf <$> Sample.withoutToday -> String.le k k')).
Proof.
  apply (missing_today_takes_next_date Sample.t en Sample.clock Sample.withoutToday);
    [reflexivity | done | vm_compute; set_solver].
Defined.

(** With today missing, today's slot shows the nearest later date. *)
Example missing_today_sample :
  reconcile Sample.t en Sample.clock Sample.withoutToday
  = Return [ {| day := "Today"; temp := 18; condition := "moderate rain"; info_icon := "10d" |};
             {| day := "Tomorrow"; temp := -2; condition := "snow"; info_icon := "10d" |};
             {| day := "Day After Tomorrow"; temp := 20; condition := "clear sky";
                info_icon := "10d" |} ].
Proof. by vm_compute. Qed.

(** C10. For every raw forecast list of well-formed entries, the three
    entries returned are shown for keys [k0], [k1], [k2] such that the dates
    among them are dates of the list and pairwise distinct, and a slot is
    without a date, and so shows the placeholder, only when every date of the
    list is the key of an earlier slot. *)
Theorem slots_take_distinct_dates (t : Translations) (language : Language)
    (clock : Clock) (data_list : list ForecastItem) :
  forallb well_formed data_list = true ->
  exists k0 k1 k2 e0 e1 e2,
    reconcile t language clock data_list = Return [e0; e1; e2] /\
    shows data_list (today t) k0 e0 /\
    shows data_list (tomorrow t) k1 e1 /\
    shows data_list (thirdLabel t language clock) k2 e2 /\
    NoDup (omap id [k0; k1; k2]) /\
    (forall k, Some k ∈ [k0; k1; k2] -> k ∈ dateOf <$> data_list) /\
    (forall i, [k0; k1; k2] !! i = Some None ->
       forall k, k ∈ dateOf <$> data_list -> Some k ∈ take i [k0; k1; k2]).
Proof.
  intros Hwf.
  destruct (reconcile_Picks t language clock data_list Hwf)
    as (k0 & k1 & k2 & e0 & e1 & e2 & Hpicks & Hrec & H0 & H1 & H2).
  exists k0, k1, k2, e0, e1, e2. do 4 (split; [done|]).
  split; [by eapply Picks_NoDup|]. split.
  - intros k Hin. apply (grouped_iff_dated _ Hwf).
    by destruct (Picks_available _ _ _ _ Hpicks k Hin).
  - intros i Hi k Hk%(grouped_iff_dated _ Hwf).
    destruct (Picks_None _ _ _ _ i Hpicks Hi k Hk) as [Hin | Hin]; [|done].
    by apply not_elem_of_empty in Hin.
Qed.

Lemma slots_take_distinct_dates_witness :
  exists k0 k1 k2 e0 e1 e2,
    reconcile Sample.t en Sample.clock Sample.stale = Return [e0; e1; e2] /\
    shows Sample.stale (today Sample.t) k0 e0 /\
    shows Sample.stale (tomorrow Sample.t) k1 e1 /\
    shows Sample.stale (thirdLabel Sample.t en Sample.clock) k2 e2 /\
    NoDup (omap id [k0; k1; k2]) /\
    (forall k, Some k ∈ [k0; k1; k2] -> k ∈ dateOf <$> Sample.stale) /\
    (forall i, [k0; k1; k2] !! i = Some None ->
       forall k, k ∈ dateOf <$> Sample.stale -> Some k ∈ take i [k0; k1; k2]).
Proof.
  apply (slots_take_distinct_dates Sample.t en Sample.clock Sample.stale); reflexivity.
Defined.

(** Two dates for three slots: the third slot shows the placeholder. *)
Example two_dates_leave_a_placeholder :
  reconcile Sample.t en Sample.clock Sample.stale
  = Return [ {| day := "Today"; temp := 18; condition := "moderate rain"; info_icon := "10d" |};
             {| day := "Tomorrow"; temp := 20; condition := "clear sky"; info_icon := "10d" |};
             placeholder "Day After Tomorrow" ].
Proof. by vm_compute. Qed.

(** Why the entries must be well formed: an entry whose timestamp starts with
    a space is grouped under the empty key, which sorts first, is found by
    the last search and fails the test that follows it; the slots then show
    placeholders although the date of the other entry was never taken. *)
Example empty_date_blocks_last_search :
  reconcile Sample.t en Sample.clock
    [Sample.forecast " 21:00:00" 20 "clear sky";
     Sample.forecast "2026-10-30 21:00:00" 20 "clear sky"]
  = Return [placeholder "Today"; placeholder "Tomorrow"; placeholder "Day After Tomorrow"].
Proof. by vm_compute. Qed.

End WeatherForecastFacts.

(** ** The camera *)

Module DiseaseDetectorFacts.
Import Js DiseaseDetector.

(** *** openCamera *)

Lemma firstStream_Some getUserMedia constraints mediaStream :
  firstStream getUserMedia constraints = Some mediaStream ->
  exists before c after,
    constraints = before ++ c :: after /\
    Forall (rejects getUserMedia) before /\
    getUserMedia c = Return mediaStream.
Proof.
  induction constraints as [|c rest IH]; [done|]. cbn [firstStream].
  destruct (getUserMedia c) as [ms|e] eqn:Hc.
  - intros [= ->]. by exists [], c, rest.
  - intros (before & c' & after & -> & Hbefore & Hc')%IH.
    exists (c :: before), c', after. split; [done|]. split; [|done].
    constructor; [by exists e | done].
Qed.

Lemma firstStream_None getUserMedia constraints :
  firstStream getUserMedia constraints = None ->
  Forall (rejects getUserMedia) constraints.
Proof.
  induction constraints as [|c rest IH]; [constructor|]. cbn [firstStream].
  destruct (getUserMedia c) as [ms|e] eqn:Hc; [done|].
  intros Hrest. constructor; [by exists e | by apply IH].
Qed.

(** C8. [openCamera] tries the exact device id first whenever one is given
    (a device id that is not the empty string), and never otherwise; then the
    exact facing, then the ideal facing, then any camera. It gets the stream
    of the first request that does not reject, and opens the camera view on
    it; it fails, leaving an error message in the state, only when
    [getUserMedia] is missing or every request rejects. On the sample device
    where only the request for any camera succeeds, a preference for the
    rear camera still gets the stream. *)
Theorem openCamera_falls_back_in_order (navigator : Navigator) (t : Translations)
    (options : option Options) (s : State) :
  let facingToTry := default (cameraFacing s) (optionsFacing options) in
  let constraints := tryConstraints options (cameraFacing s) in
  (forall deviceId,
     optionsDeviceId options = Some deviceId ->
     deviceId <> EmptyString ->
     constraints = [DeviceIdExact deviceId; FacingModeExact facingToTry;
                    FacingModeIdeal facingToTry; VideoTrue]) /\
  (optionsDeviceId options = None \/ optionsDeviceId options = Some EmptyString ->
   constraints = [FacingModeExact facingToTry; FacingModeIdeal facingToTry; VideoTrue]) /\
  match openCamera_try navigator options (cameraFacing s) with
  | Return mediaStream =>
      (exists getUserMedia before c after,
         mediaDevices navigator ≫= DiseaseDetector.getUserMedia = Some getUserMedia /\
         constraints = before ++ c :: after /\
         Forall (rejects getUserMedia) before /\
         getUserMedia c = Return mediaStream) /\
      openCamera navigator t options s
      = setIsCameraOpen true (setStream (Some mediaStream) s)
  | Throw err =>
      (mediaDevices navigator ≫= DiseaseDetector.getUserMedia = None \/
       exists getUserMedia,
         mediaDevices navigator ≫= DiseaseDetector.getUserMedia = Some getUserMedia /\
         Forall (rejects getUserMedia) constraints) /\
      openCamera navigator t options s
      = setError (Some (or_string (errorCameraGeneric t) "Could not access camera.")) s
  end /\
  openCamera_try Sample.anyCameraOnly (Some Sample.rearFacing) (cameraFacing s)
  = Return Sample.frontStream.
Proof.
  intros facingToTry constraints. split; [|split; [|split; [|done]]].
  - intros deviceId Hgiven Hnonempty. subst constraints. unfold tryConstraints.
    fold facingToTry. rewrite Hgiven. by destruct deviceId.
  - intros Hnot. subst constraints. unfold tryConstraints. fold facingToTry.
    by destruct Hnot as [-> | ->].
  - unfold openCamera, openCamera_try. fold constraints.
    destruct (mediaDevices navigator ≫= DiseaseDetector.getUserMedia)
      as [getUserMedia|] eqn:Hsupport; [|split; [by left | done]].
    destruct (firstStream getUserMedia constraints) as [mediaStream|] eqn:Hfirst.
    + split; [|done].
      destruct (firstStream_Some _ _ _ Hfirst) as (before & c & after & ? & ? & ?).
      by exists getUserMedia, before, c, after.
    + split; [|done]. right. exists getUserMedia. split; [done|].
      by apply firstStream_None.
Qed.

(** *** closeCamera *)

Lemma stop_not_live (track : nat) (ts : gmap nat ReadyState) :
  ts !! track <> Some live -> stop track ts = ts.
Proof.
  intros Hnot. apply map_eq. intros k. unfold stop.
  destruct (decide (track = k)) as [<- | Hne].
  - rewrite lookup_alter_eq. by destruct (ts !! track) as [[|]|].
  - by rewrite lookup_alter_ne.
Qed.

Lemma stopAll_lookup (st : MediaStream) (ts : gmap nat ReadyState) (k : nat) :
  stopAll st ts !! k
  = if bool_decide (k ∈ getTracks st) then (fun _ => ended) <$> ts !! k else ts !! k.
Proof.
  unfold stopAll. revert ts. induction (getTracks st) as [|track l IH]; intros ts; [done|].
  cbn [foldl]. rewrite IH. unfold stop.
  destruct (decide (track = k)) as [<- | Hne].
  - rewrite lookup_alter_eq, (bool_decide_eq_true_2 (track ∈ track :: l)) by left.
    case_bool_decide; by destruct (ts !! track).
  - rewrite lookup_alter_ne by done.
    destruct (decide (k ∈ l)) as [Hin | Hin].
    + by rewrite !bool_decide_eq_true_2 by (done || by right).
    + rewrite !bool_decide_eq_false_2; [done | | done].
      by intros [?|?]%elem_of_cons.
Qed.

(** Stopping the tracks of a stream whose tracks are not live changes
    nothing. *)
Lemma stopAll_stopped (st : MediaStream) (ts : gmap nat ReadyState) :
  (forall track, track ∈ getTracks st -> ts !! track <> Some live) ->
  stopAll st ts = ts.
Proof.
  intros Hstopped. apply map_eq. intros k. rewrite stopAll_lookup.
  case_bool_decide as Hin; [|done].
  specialize (Hstopped k Hin). by destruct (ts !! k) as [[|]|].
Qed.

Lemma stopAll_idempotent (st : MediaStream) (ts : gmap nat ReadyState) :
  stopAll st (stopAll st ts) = stopAll st ts.
Proof.
  apply stopAll_stopped. intros track Hin. rewrite stopAll_lookup.
  rewrite bool_decide_eq_true_2 by done. by destruct (ts !! track).
Qed.

(** Calling the same callback twice is calling it once. *)
Lemma closeCamera_idempotent (stream : option MediaStream) (s : State) :
  closeCamera stream (closeCamera stream s) = closeCamera stream s.
Proof.
  destruct stream as [st|]; [|done].
  unfold closeCamera, setIsCameraOpen, setStream, setTracks. cbn.
  by rewrite stopAll_idempotent.
Qed.

(** The callback of the next render closes over the [null] that the first
    call has set: it changes nothing. *)
Lemma closeCamera_rendered_after (stream : option MediaStream) (s : State) :
  closeCamera_rendered (closeCamera stream s) = closeCamera stream s.
Proof. by destruct stream. Qed.

(** C9. When the stream is [null] or all its tracks are already stopped,
    [closeCamera] changes no track; it leaves the component without a stream
    and with the camera view closed, and a second call, by the same callback
    or by the one of the next render, leaves the state of the first. The
    function is total: no call throws. *)
Theorem closeCamera_on_stopped_stream (stream : option MediaStream) (s : State) :
  stopped stream s ->
  tracks (closeCamera stream s) = tracks s /\
  DiseaseDetector.stream (closeCamera stream s) = None /\
  isCameraOpen (closeCamera stream s) = false /\
  closeCamera stream (closeCamera stream s) = closeCamera stream s /\
  closeCamera_rendered (closeCamera stream s) = closeCamera stream s.
Proof.
  intros Hstopped. split.
  - destruct stream as [st|]; [|done]. cbn. by apply stopAll_stopped.
  - split; [by destruct stream|]. split; [by destruct stream|].
    split; [apply closeCamera_idempotent | apply closeCamera_rendered_after].
Qed.

Lemma closeCamera_on_stopped_stream_witness :
  tracks (closeCamera (Some Sample.frontStream) Sample.afterStop) = tracks Sample.afterStop /\
  DiseaseDetector.stream (closeCamera (Some Sample.frontStream) Sample.afterStop) = None /\
  isCameraOpen (closeCamera (Some Sample.frontStream) Sample.afterStop) = false /\
  closeCamera (Some Sample.frontStream) (closeCamera (Some Sample.frontStream) Sample.afterStop)
  = closeCamera (Some Sample.frontStream) Sample.afterStop /\
  closeCamera_rendered (closeCamera (Some Sample.frontStream) Sample.afterStop)
  = closeCamera (Some Sample.frontStream) Sample.afterStop.
Proof.
  apply (closeCamera_on_stopped_stream (Some Sample.frontStream) Sample.afterStop).
  intros track Hin. apply list_elem_of_singleton in Hin as ->. by vm_compute.
Defined.

(** On a live stream the first call stops the tracks and the second changes
    nothing more. *)
Example closeCamera_twice_on_live_stream :
  let s := setTracks {[ 7 := live ]} Sample.afterStop in
  tracks (closeCamera_rendered s) = {[ 7 := ended ]} /\
  closeCamera_rendered (closeCamera_rendered s) = closeCamera_rendered s.
Proof. split; [by vm_compute | apply closeCamera_rendered_after]. Qed.

End DiseaseDetectorFacts.

(** ** The two services: the failure paths *)

Module GeminiServiceMore.
Import Js GeminiService JsFacts GeminiServiceFacts.

Lemma nonempty_truthy (s : string) : s <> EmptyString -> truthy_string s = true.
Proof. by destruct s. Qed.

Lemma pretty_N_go_nonempty (x : N) (s : string) :
  s <> EmptyString -> pretty_N_go x s <> EmptyString.
Proof.
  revert s. induction (N.lt_wf_0 x) as [x _ IH]; intros s Hs.
  destruct (decide (0 < x)%N) as [Hpos | Hzero].
  - rewrite pretty_N_go_step by done. apply IH; [by apply N.div_lt | done].
  - assert (x = 0%N) as -> by lia. by rewrite pretty_N_go_0.
Qed.

Lemma pretty_Z_nonempty (n : Z) : pretty n <> EmptyString.
Proof.
  destruct n as [|p|p]; [done| |done].
  change (pretty (Z.pos p)) with (pretty (N.pos p)).
  unfold pretty, pretty_N. destruct (decide (N.pos p = 0%N)); [done|].
  rewrite pretty_N_go_step by lia. by apply pretty_N_go_nonempty.
Qed.

(** [JSON.stringify] never gives the empty string. *)
Lemma stringify_truthy (v : JSON) : truthy_string (stringify v) = true.
Proof.
  destruct v as [|[|]|n|s|l|props]; try reflexivity.
  apply nonempty_truthy, pretty_Z_nonempty.
Qed.

(** A replacement text without a dollar sign is inserted as it is. *)
Lemma substitution_plain (before matched after rep : string) :
  includes rep "$" = false -> substitution before matched after rep = rep.
Proof.
  induction rep as [|c r IH]; [done|]. cbn [includes startsWith].
  rewrite andb_true_r. intros [Hc Hr]%orb_false_elim. specialize (IH Hr).
  destruct c as [[] [] [] [] [] [] [] []]; try discriminate Hc;
    cbn [substitution]; by rewrite IH.
Qed.

Lemma str_take_drop (i : nat) (s : string) : str_take i s +:+ str_drop i s = s.
Proof.
  revert s. induction i as [|i IH]; intros [|c s]; try reflexivity.
  cbn [str_take str_drop]. by rewrite append_cons, IH.
Qed.

(** [replace] with a plain replacement text: the text up to the first
    occurrence, the replacement, and the text after the occurrence. *)
Lemma replace_first (s pat rep : string) (i : nat) :
  indexOf s pat = Some i ->
  includes rep "$" = false ->
  replace s pat rep = str_take i s +:+ rep +:+ str_drop (i + String.length pat) s.
Proof. intros Hi Hrep. unfold replace. by rewrite Hi, substitution_plain. Qed.

Lemma replace_absent (s pat rep : string) :
  indexOf s pat = None -> replace s pat rep = s.
Proof. intros Hi. unfold replace. by rewrite Hi. Qed.

(** *** sendMessageToChat *)

Lemma sendMessageToChat_configured fetch API_BASE_URL message history t :
  truthy_string API_BASE_URL = true ->
  sendMessageToChat fetch API_BASE_URL message history t
  = try_catch (sendMessageToChat_try fetch API_BASE_URL message history)
              (sendMessageToChat_catch API_BASE_URL t).
Proof. intros Hurl. unfold sendMessageToChat. by rewrite Hurl. Qed.

(** X1. With the base URL configured, whatever the network does,
    [sendMessageToChat] either resolves to the reply found in the [try] block
    or rejects with one of two errors made from the translation table: the
    generic chat error or the connection error. No other error, and no text
    of the server, reaches the caller. *)
Theorem chat_rejections_are_from_the_table fetch API_BASE_URL message history t :
  truthy_string API_BASE_URL = true ->
  match sendMessageToChat fetch API_BASE_URL message history t with
  | Return reply => sendMessageToChat_try fetch API_BASE_URL message history = Return reply
  | Throw e =>
      e = Error (chatError t) \/
      e = Error (replace (errorApiConnection t) "{url}" API_BASE_URL)
  end.
Proof.
  intros Hurl. rewrite sendMessageToChat_configured by done.
  destruct (sendMessageToChat_try fetch API_BASE_URL message history) as [reply|e0];
    [done|].
  cbn [try_catch]. unfold sendMessageToChat_catch. destruct (_ && _); auto.
Qed.

Lemma chat_rejections_are_from_the_table_witness :
  truthy_string Sample.API_BASE_URL = true /\
  match sendMessageToChat
          (Sample.always (Failed 500 (Return (Sample.errorBody Sample.leafDetail))
                            Sample.noText))
          Sample.API_BASE_URL "How do I treat it?" [] Sample.t with
  | Return reply =>
      sendMessageToChat_try
        (Sample.always (Failed 500 (Return (Sample.errorBody Sample.leafDetail))
                          Sample.noText))
        Sample.API_BASE_URL "How do I treat it?" [] = Return reply
  | Throw e =>
      e = Error (chatError Sample.t) \/
      e = Error (replace (errorApiConnection Sample.t) "{url}" Sample.API_BASE_URL)
  end.
Proof.
  split; [reflexivity|].
  apply (chat_rejections_are_from_the_table
           (Sample.always (Failed 500 (Return (Sample.errorBody Sample.leafDetail))
                             Sample.noText))
           Sample.API_BASE_URL "How do I treat it?" [] Sample.t).
  reflexivity.
Defined.

(** X2. When [fetch] rejects with the [TypeError] "Failed to fetch", both
    services reject with the connection text of the table in which the first
    [{url}] is replaced by the base URL, the URL being free of dollar signs. *)
Theorem connection_failure_names_the_url
    (fetchDetect : Request -> FetchOutcome BackendDiseaseResponse)
    (fetchChat : Request -> FetchOutcome JSON)
    API_BASE_URL file language message history t (i : nat) :
  truthy_string API_BASE_URL = true ->
  includes API_BASE_URL "$" = false ->
  indexOf (errorApiConnection t) "{url}" = Some i ->
  fetchDetect (detectRequest API_BASE_URL file language)
  = Rejected (TypeError "Failed to fetch") ->
  fetchChat (chatRequest API_BASE_URL message history)
  = Rejected (TypeError "Failed to fetch") ->
  let text := str_take i (errorApiConnection t) +:+ API_BASE_URL
              +:+ str_drop (i + 5) (errorApiConnection t) in
  detectDisease fetchDetect API_BASE_URL file language t = Throw (Error text) /\
  sendMessageToChat fetchChat API_BASE_URL message history t = Throw (Error text).
Proof.
  intros Hurl Hplain Hi Hdetect Hchat text. subst text.
  pose proof (replace_first _ "{url}" _ _ Hi Hplain) as Hrep.
  cbn [String.length] in Hrep. rewrite <-Hrep. split.
  - unfold detectDisease, detectDisease_try. by rewrite Hurl, Hdetect.
  - rewrite sendMessageToChat_configured by done.
    unfold sendMessageToChat_try. by rewrite Hchat.
Qed.

Lemma connection_failure_names_the_url_witness :
  detectDisease (Sample.always (Rejected (TypeError "Failed to fetch")))
    Sample.API_BASE_URL Sample.leaf en Sample.t
  = Throw (Error "Could not connect to the server at http://127.0.0.1:8000.") /\
  sendMessageToChat (Sample.always (Rejected (TypeError "Failed to fetch")))
    Sample.API_BASE_URL "How do I treat it?" [] Sample.t
  = Throw (Error "Could not connect to the server at http://127.0.0.1:8000.").
Proof.
  apply (connection_failure_names_the_url
           (Sample.always (Rejected (TypeError "Failed to fetch")))
           (Sample.always (Rejected (TypeError "Failed to fetch")))
           Sample.API_BASE_URL Sample.leaf en "How do I treat it?" [] Sample.t 35);
    reflexivity.
Defined.

(** *** detectDisease *)

Lemma detectDisease_configured fetch API_BASE_URL file language t :
  truthy_string API_BASE_URL = true ->
  detectDisease fetch API_BASE_URL file language t
  = try_catch (detectDisease_try fetch API_BASE_URL file language t)
              (detectDisease_catch API_BASE_URL t).
Proof. intros Hurl. unfold detectDisease. by rewrite Hurl. Qed.

(** X3. With the base URL configured, an error raised by [detectDisease]
    never has an empty message of its own: its message is not empty, or it
    is the generic error or the connection error of the table. *)
Theorem detect_rejections_carry_a_message fetch API_BASE_URL file language t e :
  truthy_string API_BASE_URL = true ->
  detectDisease fetch API_BASE_URL file language t = Throw e ->
  truthy_string (message e) = true \/
  e = Error (errorApi t) \/
  e = Error (replace (errorApiConnection t) "{url}" API_BASE_URL).
Proof.
  intros Hurl. rewrite detectDisease_configured by done.
  destruct (detectDisease_try fetch API_BASE_URL file language t) as [r|e0]; [done|].
  cbn [try_catch]. unfold detectDisease_catch.
  destruct (_ && _); [intros [= <-]; auto|].
  destruct (truthy_string (message e0)) eqn:Hmsg; intros [= <-]; auto.
Qed.

Lemma detect_rejections_carry_a_message_witness :
  truthy_string (message (Error (errorApi Sample.t))) = true \/
  Error (errorApi Sample.t) = Error (errorApi Sample.t) \/
  Error (errorApi Sample.t)
  = Error (replace (errorApiConnection Sample.t) "{url}" Sample.API_BASE_URL).
Proof.
  apply (detect_rejections_carry_a_message
           (Sample.always (Failed 400 (Return (Sample.errorBody (JArr []))) Sample.noText))
           Sample.API_BASE_URL Sample.leaf en Sample.t (Error (errorApi Sample.t)));
    reflexivity.
Defined.

(** X4. For a non-success response whose body is not JSON, [response.text()]
    is called after the failed [response.json()] has consumed the body, and
    rejects. [detectDisease] raises that rejection as it is, whenever it
    carries a message and is not the [TypeError] "Failed to fetch"; the
    message "HTTP error! status: ..." is not produced. *)
Theorem unreadable_body_raises_the_text_rejection fetch API_BASE_URL file language t
    status e e' :
  truthy_string API_BASE_URL = true ->
  fetch (detectRequest API_BASE_URL file language) = Failed status (Throw e) (Throw e') ->
  truthy_string (message e') = true ->
  is_TypeError e' && String.eqb (message e') "Failed to fetch" = false ->
  detectDisease fetch API_BASE_URL file language t = Throw e'.
Proof.
  intros Hurl Hfetch Hmsg Hother. rewrite detectDisease_configured by done.
  unfold detectDisease_try. rewrite Hfetch. cbn [bind try_catch].
  unfold detectDisease_catch. by rewrite Hother, Hmsg.
Qed.

Lemma unreadable_body_raises_the_text_rejection_witness :
  detectDisease
    (Sample.always (Failed 502 (Throw (mkError "SyntaxError" "Unexpected token <"))
                      Sample.noText))
    Sample.API_BASE_URL Sample.leaf en Sample.t
  = Throw (TypeError "Failed to execute 'text' on 'Response': body stream already read").
Proof.
  apply (unreadable_body_raises_the_text_rejection
           (Sample.always (Failed 502 (Throw (mkError "SyntaxError" "Unexpected token <"))
                             Sample.noText))
           Sample.API_BASE_URL Sample.leaf en Sample.t 502
           (mkError "SyntaxError" "Unexpected token <")
           (TypeError "Failed to execute 'text' on 'Response': body stream already read"));
    reflexivity.
Defined.

(** The JSON text of the body is the message whenever [detail] is not used. *)
Lemma detectErrorBody_whole {A} (status : Z) (parsed : JSON) :
  status <> 400%Z \/ (forall detail, get_detail parsed = Some detail -> truthy detail = false) ->
  detectErrorBody (A := A) status parsed = Throw (Error (stringify parsed)).
Proof.
  intros [Hstatus | Hfalsy]; [by apply detectErrorBody_other_status|].
  unfold detectErrorBody. destruct (_ && _); [|done].
  destruct (get_detail parsed) as [detail|]; [|done].
  by rewrite (Hfalsy detail).
Qed.

(** X5. A non-success response with a JSON body raises the JSON text of the
    whole body whenever the status is not 400 or the body has no truthy
    [detail]. *)
Theorem whole_body_is_the_message fetch API_BASE_URL file language t status parsed text :
  truthy_string API_BASE_URL = true ->
  fetch (detectRequest API_BASE_URL file language) = Failed status (Return parsed) text ->
  status <> 400%Z \/ (forall detail, get_detail parsed = Some detail -> truthy detail = false) ->
  detectDisease fetch API_BASE_URL file language t = Throw (Error (stringify parsed)).
Proof.
  intros Hurl Hfetch Hwhole. rewrite detectDisease_configured by done.
  unfold detectDisease_try. rewrite Hfetch. cbn [try_catch].
  rewrite detectErrorBody_whole by done. cbn [try_catch].
  apply detectDisease_catch_rethrows, stringify_truthy.
Qed.

Lemma whole_body_is_the_message_witness :
  detectDisease
    (Sample.always (Failed 500 (Return (Sample.errorBody Sample.leafDetail)) Sample.noText))
    Sample.API_BASE_URL Sample.leaf en Sample.t
  = Throw (Error (stringify (Sample.errorBody Sample.leafDetail))).
Proof.
  apply (whole_body_is_the_message
           (Sample.always (Failed 500 (Return (Sample.errorBody Sample.leafDetail))
                             Sample.noText))
           Sample.API_BASE_URL Sample.leaf en Sample.t 500
           (Sample.errorBody Sample.leafDetail) Sample.noText);
    [reflexivity | reflexivity | by left].
Defined.

End GeminiServiceMore.

(** ** The forecast reconciler on any list *)

Module WeatherForecastMore.
Import Js WeatherForecast JsFacts WeatherForecastFacts Calendar.

(** Every turn of the loop pushes one value. *)
Lemma pickOne_length m availableKeys picked used tk :
  length (pickOne m availableKeys (picked, used) tk).1 = S (length picked).
Proof.
  unfold pickOne. repeat case_match; cbn [fst]; rewrite length_app; cbn; lia.
Qed.

Lemma foldl_pickOne_length m availableKeys targetKeys :
  forall st, length (foldl (pickOne m availableKeys) st targetKeys).1
             = (length st.1 + length targetKeys)%nat.
Proof.
  induction targetKeys as [|tk tks IH]; intros [picked used]; cbn [foldl fst length].
  - lia.
  - rewrite IH, pickOne_length. lia.
Qed.

Lemma pick_length m targetKeys : length (pick m targetKeys).1 = length targetKeys.
Proof. unfold pick. by rewrite foldl_pickOne_length. Qed.

Lemma formatItem_day t language clock (idx : nat) item e :
  (idx < 3)%nat ->
  formatItem t language clock idx item = Return e ->
  day e = label t language clock idx.
Proof.
  intros Hidx. unfold formatItem.
  destruct item as [it| |]; [destruct (weather it)|..];
    destruct idx as [|[|[|idx]]]; try lia; by intros [= <-].
Qed.

(** Whenever the reconciler returns, it returns three entries with the three
    labels in order. *)
Lemma reconcile_three t language clock data_list formattedData :
  reconcile t language clock data_list = Return formattedData ->
  exists e0 e1 e2,
    formattedData = [e0; e1; e2] /\
    day e0 = today t /\ day e1 = tomorrow t /\ day e2 = thirdLabel t language clock.
Proof.
  unfold reconcile.
  pose proof (pick_length (groupByDate data_list) (toKey <$> dayDates clock)) as Hlen.
  destruct (pick (groupByDate data_list) (toKey <$> dayDates clock)).1
    as [|p0 [|p1 [|p2 [|]]]]; try done.
  cbn [mapFrom].
  destruct (formatItem t language clock 0 p0) as [e0|] eqn:H0; [|done].
  destruct (formatItem t language clock 1 p1) as [e1|] eqn:H1; [|done].
  destruct (formatItem t language clock 2 p2) as [e2|] eqn:H2; [|done].
  cbn. intros [= <-]. exists e0, e1, e2. split; [done|].
  apply formatItem_day in H0, H1, H2; try lia. done.
Qed.

(** X6. For every forecast list, well formed or not, a run of the reconciler
    that returns gives exactly three entries, labelled for today, tomorrow
    and the day after in that order. *)
Theorem reconciler_returns_three_labelled t language clock data_list formattedData :
  reconcile t language clock data_list = Return formattedData ->
  length formattedData = 3%nat /\
  day <$> formattedData = [today t; tomorrow t; thirdLabel t language clock].
Proof.
  intros (e0 & e1 & e2 & -> & H0 & H1 & H2)%reconcile_three.
  split; [done|]. cbn. by rewrite H0, H1, H2.
Qed.

Lemma reconciler_returns_three_labelled_witness :
  length [placeholder "Today"; placeholder "Tomorrow"; placeholder "Day After Tomorrow"]
  = 3%nat /\
  day <$> [placeholder "Today"; placeholder "Tomorrow"; placeholder "Day After Tomorrow"]
  = [today Sample.t; tomorrow Sample.t; thirdLabel Sample.t en Sample.clock].
Proof.
  apply (reconciler_returns_three_labelled Sample.t en Sample.clock
           [Sample.forecast " 21:00:00" 20 "clear sky";
            Sample.forecast "2026-10-30 21:00:00" 20 "clear sky"]).
  by vm_compute.
Defined.

(** X7. Whatever the key, the network and the list, [fetchWeatherData] ends
    with [loading] off, and either with three labelled entries and no error,
    or with the entries it started with and one of two errors of the table:
    the missing key or the API error. *)
Theorem fetchWeatherData_ends_settled fetch WEATHER_API_KEY t language clock
    latitude longitude s :
  let s' := fetchWeatherData fetch WEATHER_API_KEY t language clock latitude longitude s in
  loading s' = false /\
  ((error s' = None /\ length (weatherData s') = 3%nat /\
    day <$> weatherData s' = [today t; tomorrow t; thirdLabel t language clock]) \/
   (weatherData s' = weatherData s /\
    (error s' = Some (weatherErrorNoKey t) \/ error s' = Some (weatherErrorApi t)))).
Proof.
  unfold fetchWeatherData. destruct (truthy_string WEATHER_API_KEY); cbn [negb].
  - destruct (fetchWeatherData_try _ _ _ _ _ _ _) as [formattedData|e] eqn:Htry.
    + split; [done|]. left. split; [done|].
      unfold fetchWeatherData_try in Htry.
      destruct (fetch _) as [|status [data_list|]|]; try done.
      cbn [bind] in Htry.
      destruct (reconcile_three _ _ _ _ _ Htry) as (e0 & e1 & e2 & -> & H0 & H1 & H2).
      cbn. by rewrite H0, H1, H2.
    + split; [done|]. right. split; [done | by right].
  - split; [done|]. right. split; [done | by left].
Qed.

(** A target key that is available is the one chosen. *)
Lemma chooses_exact m used tk key :
  available m used tk -> chooses m used tk key -> key = Some tk.
Proof.
  intros Hav. destruct key as [k|]; [|intros Hnone; by destruct (Hnone tk)].
  by intros [_ [-> | [[Hnot _] | [Hnot _]]]].
Qed.

(** X8. When the list of well-formed entries has the dates of all three
    target keys, and the keys differ, every slot shows the first entry of
    its own date. *)
Theorem present_dates_fill_their_own_slots t language clock data_list :
  forallb well_formed data_list = true ->
  toKey (clock_today clock) ∈ dateOf <$> data_list ->
  toKey (clock_tomorrow clock) ∈ dateOf <$> data_list ->
  toKey (clock_dayAfter clock) ∈ dateOf <$> data_list ->
  toKey (clock_today clock) <> toKey (clock_tomorrow clock) ->
  toKey (clock_today clock) <> toKey (clock_dayAfter clock) ->
  toKey (clock_tomorrow clock) <> toKey (clock_dayAfter clock) ->
  exists e0 e1 e2,
    reconcile t language clock data_list = Return [e0; e1; e2] /\
    shows data_list (today t) (Some (toKey (clock_today clock))) e0 /\
    shows data_list (tomorrow t) (Some (toKey (clock_tomorrow clock))) e1 /\
    shows data_list (thirdLabel t language clock) (Some (toKey (clock_dayAfter clock))) e2.
Proof.
  intros Hwf H0 H1 H2 Hne01 Hne02 Hne12.
  destruct (reconcile_Picks t language clock data_list Hwf)
    as (k0 & k1 & k2 & e0 & e1 & e2 & Hpicks & Hrec & Hs0 & Hs1 & Hs2).
  apply (grouped_iff_dated _ Hwf) in H0, H1, H2.
  inversion Hpicks as [|? ? ? ? ? Hc0 Hpicks1]; subst.
  inversion Hpicks1 as [|? ? ? ? ? Hc1 Hpicks2]; subst.
  inversion Hpicks2 as [|? ? ? ? ? Hc2 _]; subst.
  apply chooses_exact in Hc0 as ->; [|split; [done | set_solver]].
  cbn [keySet] in Hc1, Hc2.
  apply chooses_exact in Hc1 as ->; [|split; [done | set_solver]].
  cbn [keySet] in Hc2.
  apply chooses_exact in Hc2 as ->; [|split; [done | set_solver]].
  by exists e0, e1, e2.
Qed.

Lemma present_dates_fill_their_own_slots_witness :
  exists e0 e1 e2,
    reconcile Sample.t en Sample.clock Sample.fromToday = Return [e0; e1; e2] /\
    shows Sample.fromToday (today Sample.t) (Some (toKey (clock_today Sample.clock))) e0 /\
    shows Sample.fromToday (tomorrow Sample.t)
          (Some (toKey (clock_tomorrow Sample.clock))) e1 /\
    shows Sample.fromToday (thirdLabel Sample.t en Sample.clock)
          (Some (toKey (clock_dayAfter Sample.clock))) e2.
Proof.
  apply (present_dates_fill_their_own_slots Sample.t en Sample.clock Sample.fromToday);
    [reflexivity | vm_compute; set_solver.. | done | done | done].
Defined.

(** *** Entries after the first of a date *)

Lemma firstOf_cons item l k :
  firstOf (item :: l) k = if String.eqb (dateOf item) k then Some item else firstOf l k.
Proof. reflexivity. Qed.

Lemma firstOf_app_found a b k :
  is_Some (firstOf a k) -> firstOf (a ++ b) k = firstOf a k.
Proof.
  induction a as [|x a IH]; [by intros [? ?]|].
  cbn [app]. rewrite !firstOf_cons. destruct (String.eqb _ _); [done | exact IH].
Qed.

Lemma firstOf_skip a item b k :
  dateOf item <> k -> firstOf (a ++ item :: b) k = firstOf (a ++ b) k.
Proof.
  intros Hne. induction a as [|x a IH]; cbn [app]; rewrite !firstOf_cons.
  - by rewrite (proj2 (String.eqb_neq _ _) Hne).
  - destruct (String.eqb _ _); [done | exact IH].
Qed.

Lemma groupByDate_later_entry l1 item l2 :
  forallb well_formed (l1 ++ item :: l2) = true ->
  dateOf item ∈ dateOf <$> l1 ->
  groupByDate (l1 ++ item :: l2) = groupByDate (l1 ++ l2).
Proof.
  intros Hwf Hin.
  assert (forallb well_formed (l1 ++ l2) = true) as Hwf'.
  { rewrite forallb_app in Hwf |- *. cbn [forallb] in Hwf.
    apply andb_prop in Hwf as [-> [_ ->]%andb_prop]. done. }
  apply map_eq. intros k. rewrite !groupByDate_lookup by done.
  destruct (decide (dateOf item = k)) as [<- | Hne]; [|by apply firstOf_skip].
  apply firstOf_is_Some in Hin. by rewrite !firstOf_app_found.
Qed.

(** X9. An entry whose date already occurs earlier in the list of well-formed
    entries has no influence: the reconciler returns the same with or without
    it. *)
Theorem later_entries_of_a_date_are_ignored t language clock l1 item l2 :
  forallb well_formed (l1 ++ item :: l2) = true ->
  dateOf item ∈ dateOf <$> l1 ->
  reconcile t language clock (l1 ++ item :: l2) = reconcile t language clock (l1 ++ l2).
Proof.
  intros Hwf Hin. unfold reconcile. by rewrite groupByDate_later_entry.
Qed.

Lemma later_entries_of_a_date_are_ignored_witness :
  reconcile Sample.t en Sample.clock
    ([Sample.forecast "2026-11-01 18:00:00" (2150 # 100) "light rain"]
     ++ Sample.forecast "2026-11-01 21:00:00" (1930 # 100) "overcast clouds"
     :: [Sample.forecast "2026-11-02 00:00:00" (1849 # 100) "moderate rain"])
  = reconcile Sample.t en Sample.clock
      ([Sample.forecast "2026-11-01 18:00:00" (2150 # 100) "light rain"]
       ++ [Sample.forecast "2026-11-02 00:00:00" (1849 # 100) "moderate rain"]).
Proof.
  apply (later_entries_of_a_date_are_ignored Sample.t en Sample.clock
           [Sample.forecast "2026-11-01 18:00:00" (2150 # 100) "light rain"]
           (Sample.forecast "2026-11-01 21:00:00" (1930 # 100) "overcast clouds")
           [Sample.forecast "2026-11-02 00:00:00" (1849 # 100) "moderate rain"]);
    [reflexivity | vm_compute; set_solver].
Defined.

(** *** The order of the keys *)

Lemma compare_digit (a b : N) :
  Ascii.compare (digit a) (digit b) = (a mod 10 ?= b mod 10)%N.
Proof.
  unfold Ascii.compare. change N_of_ascii with code.
  rewrite !code_digit.
  destruct (N.compare_spec (a mod 10) (b mod 10)) as [-> | Hlt | Hgt].
  - apply N.compare_refl.
  - apply N.compare_lt_iff. lia.
  - apply N.compare_gt_iff. lia.
Qed.

Lemma two_digits (n : N) :
  (n < 100)%N ->
  exists a b, (a < 10 /\ b < 10 /\
               (n / 10) mod 10 = a /\ n mod 10 = b /\ n = 10 * a + b)%N.
Proof.
  intros Hn. exists ((n / 10) mod 10)%N, (n mod 10)%N.
  repeat split; zify; Z.to_euclidean_division_equations; lia.
Qed.

Lemma four_digits (n : N) :
  (n <= 9999)%N ->
  exists a b c e, (a < 10 /\ b < 10 /\ c < 10 /\ e < 10 /\
                   (n / 1000) mod 10 = a /\ (n / 100) mod 10 = b /\
                   (n / 10) mod 10 = c /\ n mod 10 = e /\
                   n = 1000 * a + 100 * b + 10 * c + e)%N.
Proof.
  intros Hn.
  exists ((n / 1000) mod 10)%N, ((n / 100) mod 10)%N, ((n / 10) mod 10)%N, (n mod 10)%N.
  repeat split; zify; Z.to_euclidean_division_equations; lia.
Qed.

Lemma toKey_printable (d : IsoDate) :
  (year d <= 9999)%N ->
  toKey d
  = String (digit (year d / 1000)) (String (digit (year d / 100))
      (String (digit (year d / 10)) (String (digit (year d)) (String "-"
        (String (digit (month d / 10)) (String (digit (month d)) (String "-"
          (String (digit (date d / 10)) (String (digit (date d)) EmptyString))))))))).
Proof. intros Hy%N.leb_le. unfold toKey. by rewrite Hy. Qed.

Ltac compare_digits :=
  repeat match goal with
  | |- context [(?a ?= ?b)%N] =>
      is_var a; is_var b;
      destruct (N.compare_spec a b); [subst | |];
      try (symmetry; first [apply N.compare_lt_iff | apply N.compare_gt_iff
                            | apply N.compare_eq_iff]; lia)
  end.

(** The keys of printable dates compare as the dates do. *)
Lemma compare_toKey (d1 d2 : IsoDate) :
  printable d1 -> printable d2 ->
  String.compare (toKey d1) (toKey d2) = (dateNumber d1 ?= dateNumber d2)%N.
Proof.
  intros (Hy1 & Hm1 & Hd1) (Hy2 & Hm2 & Hd2).
  rewrite !toKey_printable by done. unfold dateNumber.
  cbn [String.compare]. rewrite !compare_digit.
  destruct (four_digits _ Hy1) as (a1 & b1 & c1 & e1 & ? & ? & ? & ? & -> & -> & -> & -> & ->).
  destruct (four_digits _ Hy2) as (a2 & b2 & c2 & e2 & ? & ? & ? & ? & -> & -> & -> & -> & ->).
  destruct (two_digits _ Hm1) as (p1 & q1 & ? & ? & -> & -> & ->).
  destruct (two_digits _ Hm2) as (p2 & q2 & ? & ? & -> & -> & ->).
  destruct (two_digits _ Hd1) as (u1 & v1 & ? & ? & -> & -> & ->).
  destruct (two_digits _ Hd2) as (u2 & v2 & ? & ? & -> & -> & ->).
  change (Ascii.compare "-" "-") with Eq. cbv iota.
  compare_digits; symmetry; apply N.compare_eq_iff; lia.
Qed.

(** X10. For dates whose fields [toKey] prints in full (year up to 9999,
    month and day below 100), the order in which the keys are compared and
    sorted, code unit by code unit, is the order of the calendar; equal keys
    are equal dates. *)
Theorem key_order_is_calendar_order (d1 d2 : IsoDate) :
  printable d1 -> printable d2 ->
  (String.le (toKey d1) (toKey d2) <-> (dateNumber d1 <= dateNumber d2)%N) /\
  (toKey d1 = toKey d2 <-> dateNumber d1 = dateNumber d2).
Proof.
  intros H1 H2. pose proof (compare_toKey d1 d2 H1 H2) as Hcmp. split.
  - unfold String.le, String.leb. rewrite Hcmp.
    destruct (N.compare_spec (dateNumber d1) (dateNumber d2)); cbn; split; (lia || done).
  - split.
    + intros Heq. rewrite Heq in Hcmp. apply N.compare_eq_iff. rewrite <-Hcmp.
      clear. induction (toKey d2) as [|c s IH]; [done|]. cbn.
      unfold Ascii.compare. by rewrite N.compare_refl.
    + intros Heq. apply String.compare_eq_iff. rewrite Hcmp. by apply N.compare_eq_iff.
Qed.

Lemma key_order_is_calendar_order_witness :
  (String.le (toKey (clock_today Sample.clock)) (toKey (clock_tomorrow Sample.clock)) <->
   (dateNumber (clock_today Sample.clock) <= dateNumber (clock_tomorrow Sample.clock))%N) /\
  (toKey (clock_today Sample.clock) = toKey (clock_tomorrow Sample.clock) <->
   dateNumber (clock_today Sample.clock) = dateNumber (clock_tomorrow Sample.clock)).
Proof.
  apply (key_order_is_calendar_order (clock_today Sample.clock)
           (clock_tomorrow Sample.clock)); by vm_compute.
Defined.

(** *** How many slots get a forecast *)

Lemma chooses_None_empty m used tk :
  chooses m used tk None -> dom m ∖ used = ∅.
Proof.
  intros Hnone. apply set_eq. intros x. split; [|set_solver].
  intros [Hx%elem_of_dom Hun]%elem_of_difference. by destruct (Hnone x).
Qed.

Lemma Picks_count m used tks keys :
  Picks m used tks keys ->
  length (omap id keys) = (length tks `min` size (dom m ∖ used))%nat.
Proof.
  induction 1 as [|used tk tks key keys Hchooses _ IH]; [done|].
  destruct key as [k|]; cbn [omap list_omap id length keySet] in *.
  - destruct Hchooses as [[Hk%elem_of_dom Hun] _].
    assert (dom m ∖ used = {[k]} ∪ dom m ∖ (used ∪ {[k]})) as ->.
    { apply set_eq. intros x. destruct (decide (x = k)); set_solver. }
    rewrite size_union by set_solver. rewrite size_singleton, IH. lia.
  - pose proof (chooses_None_empty _ _ _ Hchooses) as Hempty.
    rewrite IH. replace (dom m ∖ (used ∪ ∅)) with (dom m ∖ used) by set_solver.
    rewrite Hempty, size_empty. lia.
Qed.

Lemma Picks_after_None m used tk tks keys :
  Picks m used (tk :: tks) (None :: keys) -> omap id keys = [].
Proof.
  intros Hpicks. inversion Hpicks as [|? ? ? ? ? Hnone Htail]; subst.
  pose proof (Picks_count _ _ _ _ Htail) as Htailcount.
  cbn [keySet] in Htailcount.
  replace (dom m ∖ (used ∪ ∅)) with (dom m ∖ used) in Htailcount by set_solver.
  rewrite (chooses_None_empty _ _ _ Hnone), size_empty in Htailcount.
  apply nil_length_inv. lia.
Qed.

Lemma dom_groupByDate data_list :
  forallb well_formed data_list = true ->
  dom (groupByDate data_list) = list_to_set (dateOf <$> data_list).
Proof.
  intros Hwf. apply set_eq. intros k.
  by rewrite elem_of_dom, elem_of_list_to_set, (grouped_iff_dated _ Hwf).
Qed.

(** X11. For every list of well-formed entries, the number of slots that show
    a forecast is the number of distinct dates of the list, three at most;
    the placeholders, if any, come last. *)
Theorem slots_filled_as_far_as_dates_go t language clock data_list :
  forallb well_formed data_list = true ->
  exists k0 k1 k2 e0 e1 e2,
    reconcile t language clock data_list = Return [e0; e1; e2] /\
    shows data_list (today t) k0 e0 /\
    shows data_list (tomorrow t) k1 e1 /\
    shows data_list (thirdLabel t language clock) k2 e2 /\
    length (omap id [k0; k1; k2])
    = (3 `min` size (list_to_set (dateOf <$> data_list) : gset string))%nat /\
    (k0 = None -> k1 = None) /\ (k1 = None -> k2 = None).
Proof.
  intros Hwf.
  destruct (reconcile_Picks t language clock data_list Hwf)
    as (k0 & k1 & k2 & e0 & e1 & e2 & Hpicks & Hrec & H0 & H1 & H2).
  exists k0, k1, k2, e0, e1, e2. do 4 (split; [done|]). split.
  - rewrite (Picks_count _ _ _ _ Hpicks), (dom_groupByDate _ Hwf).
    by replace (list_to_set (dateOf <$> data_list) ∖ ∅)
      with (list_to_set (dateOf <$> data_list) : gset string) by set_solver.
  - split.
    + intros ->. apply Picks_after_None in Hpicks. by destruct k1.
    + intros ->. inversion Hpicks as [|? ? ? ? ? _ Htail]; subst.
      apply Picks_after_None in Htail. by destruct k2.
Qed.

Lemma slots_filled_as_far_as_dates_go_witness :
  exists k0 k1 k2 e0 e1 e2,
    reconcile Sample.t en Sample.clock Sample.stale = Return [e0; e1; e2] /\
    shows Sample.stale (today Sample.t) k0 e0 /\
    shows Sample.stale (tomorrow Sample.t) k1 e1 /\
    shows Sample.stale (thirdLabel Sample.t en Sample.clock) k2 e2 /\
    length (omap id [k0; k1; k2])
    = (3 `min` size (list_to_set (dateOf <$> Sample.stale) : gset string))%nat /\
    (k0 = None -> k1 = None) /\ (k1 = None -> k2 = None).
Proof.
  apply (slots_filled_as_far_as_dates_go Sample.t en Sample.clock Sample.stale).
  reflexivity.
Defined.

(** X12. The temperature that [formatItem] gives for a forecast entry is
    within half a degree of the temperature of the entry: at most half a
    degree above it and less than half a degree below. *)
Theorem shown_temperature_is_nearest t language clock (idx : nat)
    (item : ForecastItem) (e : WeatherInfo) :
  formatItem t language clock idx (Item item) = Return e ->
  (inject_Z (temp e) <= main_temp item + (1 # 2))%Q /\
  (main_temp item - (1 # 2) < inject_Z (temp e))%Q.
Proof.
  unfold formatItem. destruct (weather item) as [|w ws]; [done|].
  intros [= <-]. cbn [temp]. unfold Math_round.
  pose proof (Qfloor_le (main_temp item + (1 # 2))) as Hle.
  pose proof (Qlt_floor (main_temp item + (1 # 2))) as Hlt.
  split; [exact Hle|].
  rewrite inject_Z_plus in Hlt.
  apply (Qplus_lt_l _ _ 1).
  eapply Qle_lt_trans; [|exact Hlt].
  ring_simplify. apply Qle_lteq. right. ring.
Qed.

Lemma shown_temperature_is_nearest_witness :
  (inject_Z (-2) <= (-5 # 2) + (1 # 2))%Q /\ ((-5 # 2) - (1 # 2) < inject_Z (-2))%Q.
Proof.
  apply (shown_temperature_is_nearest Sample.t en Sample.clock 1
           (Sample.forecast "2026-11-04 00:00:00" (-5 # 2) "snow")
           {| day := "Tomorrow"; temp := -2; condition := "snow"; info_icon := "10d" |}).
  reflexivity.
Defined.

End WeatherForecastMore.

(** ** The camera, continued *)

Module DetectorViewFacts.
Import Js GeminiService DiseaseDetector DetectorView.
Import JsFacts GeminiServiceFacts GeminiServiceMore DiseaseDetectorFacts.

(** X13. [closeCamera] on a stream ends every track of the stream and leaves
    every other track as it was; the component is left without a stream and
    with the camera view closed, its error and facing untouched. *)
Theorem closeCamera_releases_the_stream (st : MediaStream) (s : State) :
  let s' := closeCamera (Some st) s in
  (forall track, track ∈ getTracks st -> tracks s' !! track <> Some live) /\
  (forall track, track ∉ getTracks st -> tracks s' !! track = tracks s !! track) /\
  stream s' = None /\ isCameraOpen s' = false /\
  error s' = error s /\ cameraFacing s' = cameraFacing s.
Proof.
  cbn. split; [|split; [|done]].
  - intros track Hin. rewrite stopAll_lookup, bool_decide_eq_true_2 by done.
    by destruct (tracks s !! track).
  - intros track Hin. by rewrite stopAll_lookup, bool_decide_eq_false_2.
Qed.

(** *** toggleCameraFacing *)

Lemma otherFacing_involutive (f : Facing) : otherFacing (otherFacing f) = f.
Proof. by destruct f. Qed.

(** An error of the [try] block of [openCamera] is one of its own two, and
    the message set for it is the generic one. *)
Lemma openCamera_try_error navigator options cameraFacing t err :
  openCamera_try navigator options cameraFacing = Throw err ->
  cameraErrorMessage t err = or_string (errorCameraGeneric t) "Could not access camera.".
Proof.
  unfold openCamera_try. destruct (_ ≫= _) as [gum|]; [|by intros [= <-]].
  destruct (firstStream _ _); [done | by intros [= <-]].
Qed.

(** X14. With the camera view closed, [toggleCameraFacing] only flips the
    facing: no track is stopped and no camera is requested, whatever the
    device; toggling twice gives back the state. *)
Theorem toggle_on_closed_view navigator t (s : State) :
  isCameraOpen s = false ->
  toggleCameraFacing navigator t s = setCameraFacing (otherFacing (cameraFacing s)) s /\
  toggleCameraFacing navigator t (toggleCameraFacing navigator t s) = s.
Proof.
  intros Hclosed.
  assert (forall s0, isCameraOpen s0 = false ->
            toggleCameraFacing navigator t s0
            = setCameraFacing (otherFacing (cameraFacing s0)) s0) as Hflip.
  { intros s0 H0. unfold toggleCameraFacing, toggleCameraFacing_click. by rewrite H0. }
  split; [by apply Hflip|].
  rewrite (Hflip s Hclosed), Hflip by done.
  destruct s. cbn. by rewrite otherFacing_involutive.
Qed.

Lemma toggle_on_closed_view_witness :
  toggleCameraFacing Scenario.noCamera Sample.t Scenario.idle
  = setCameraFacing (otherFacing (cameraFacing Scenario.idle)) Scenario.idle /\
  toggleCameraFacing Scenario.noCamera Sample.t
    (toggleCameraFacing Scenario.noCamera Sample.t Scenario.idle)
  = Scenario.idle.
Proof.
  apply (toggle_on_closed_view Scenario.noCamera Sample.t Scenario.idle). reflexivity.
Defined.

(** X15. With the camera view open on a stream, [toggleCameraFacing] flips
    the facing and ends every track of that stream before it asks for a
    camera again, with the new facing first exactly, then ideally, then any.
    When a request succeeds the view shows the new stream; when all reject,
    the view stays open without a stream and with the generic camera error. *)
Theorem toggle_on_open_view navigator t (s : State) (st : MediaStream) :
  isCameraOpen s = true ->
  stream s = Some st ->
  let nextFacing := otherFacing (cameraFacing s) in
  let options := Some {| deviceId := None; facing := Some nextFacing |} in
  let s' := toggleCameraFacing navigator t s in
  cameraFacing s' = nextFacing /\
  (forall track, track ∈ getTracks st -> tracks s' !! track <> Some live) /\
  tryConstraints options (cameraFacing s)
  = [FacingModeExact nextFacing; FacingModeIdeal nextFacing; VideoTrue] /\
  isCameraOpen s' = true /\
  match openCamera_try navigator options (cameraFacing s) with
  | Return mediaStream => stream s' = Some mediaStream /\ error s' = error s
  | Throw _ =>
      stream s' = None /\
      error s' = Some (or_string (errorCameraGeneric t) "Could not access camera.")
  end.
Proof.
  intros Hopen Hstream nextFacing options s'.
  assert (forall track, track ∈ getTracks st ->
            stopAll st (tracks s) !! track <> Some live) as Hended.
  { intros track Hin. rewrite stopAll_lookup, bool_decide_eq_true_2 by done.
    by destruct (tracks s !! track). }
  subst s'. unfold toggleCameraFacing, toggleCameraFacing_click, openCamera_closure.
  rewrite Hopen, Hstream. fold nextFacing. fold options.
  destruct (openCamera_try navigator options (cameraFacing s)) as [ms|err] eqn:Htry.
  - by cbn.
  - cbn. rewrite (openCamera_try_error _ _ _ t _ Htry). by rewrite Hopen.
Qed.

Lemma toggle_on_open_view_witness :
  let s' := toggleCameraFacing Scenario.noCamera Sample.t Scenario.filming in
  cameraFacing s' = user /\
  (forall track, track ∈ getTracks Sample.frontStream -> tracks s' !! track <> Some live) /\
  tryConstraints (Some {| deviceId := None; facing := Some user |}) environment
  = [FacingModeExact user; FacingModeIdeal user; VideoTrue] /\
  isCameraOpen s' = true /\
  match openCamera_try Scenario.noCamera
          (Some {| deviceId := None; facing := Some user |}) environment with
  | Return mediaStream => stream s' = Some mediaStream /\ error s' = error Scenario.filming
  | Throw _ =>
      stream s' = None /\
      error s' = Some (or_string (errorCameraGeneric Sample.t) "Could not access camera.")
  end.
Proof.
  apply (toggle_on_open_view Scenario.noCamera Sample.t Scenario.filming Sample.frontStream);
    reflexivity.
Defined.

(** *** handleCapture *)

(** X16. A capture either changes nothing, when the video element, the 2d
    context or the blob is missing, or it stores the blob as a JPEG file
    named after the clock, shows its object URL, clears the result and the
    error, and releases the camera: every track of the stream ended, no
    stream, the camera view closed. *)
Theorem capture_stores_and_releases_or_does_nothing (env : CaptureEnv) (v : Capture) :
  let v' := handleCapture env v in
  (v' = v /\ (video env = None \/ context env = false \/ blob env = None)) \/
  (exists bytes capturedFile,
     blob env = Some bytes /\
     capturedFile = {| file_name := "capture-" +:+ pretty (now env) +:+ ".jpg";
                       file_type := "image/jpeg"; file_bytes := bytes |} /\
     file v' = Some capturedFile /\
     selectedImage v' = Some (createObjectURL env capturedFile) /\
     result v' = None /\
     error (camera v') = None /\
     stream (camera v') = None /\
     isCameraOpen (camera v') = false /\
     forall st track, stream (camera v) = Some st -> track ∈ getTracks st ->
       tracks (camera v') !! track <> Some live).
Proof.
  unfold handleCapture. destruct (video env) as [dims|]; [|left; auto].
  destruct (context env); [|left; auto].
  destruct (blob env) as [bytes|]; [|left; auto].
  right. eexists bytes, _. do 5 (split; [reflexivity|]).
  split; [by destruct (stream (camera v))|].
  split; [by destruct (stream (camera v))|].
  split; [by destruct (stream (camera v))|].
  intros st track -> Hin. cbn.
  rewrite stopAll_lookup, bool_decide_eq_true_2 by done.
  by destruct (tracks (camera v) !! track).
Qed.

(** *** checkForCamera *)

(** X17. After [checkForCamera], the camera is reported available exactly
    when the list of video devices is not empty, and that list holds the
    enumerated devices of kind "videoinput" and no other; without
    [enumerateDevices], or when it rejects, the list is empty. *)
Theorem camera_available_iff_video_devices
    (enumerateDevices : option (Result (list MediaDeviceInfo))) :
  let d := checkForCamera enumerateDevices in
  (cameraAvailable d = true <-> videoDevices d <> []) /\
  (forall device, device ∈ videoDevices d ->
     kind device = "videoinput" /\
     exists devices, enumerateDevices = Some (Return devices) /\ device ∈ devices) /\
  (forall devices device, enumerateDevices = Some (Return devices) ->
     device ∈ devices -> kind device = "videoinput" -> device ∈ videoDevices d).
Proof.
  destruct enumerateDevices as [[devices|e]|]; cbn.
  - split; [|split].
    + destruct (List.filter _ devices); cbn; [split; [done | congruence] | done].
    + intros device [Hin Hkind]%list_elem_of_In%filter_In.
      split; [by apply String.eqb_eq|]. exists devices. split; [done|].
      by apply list_elem_of_In.
    + intros devices0 device [= <-] Hin Hkind.
      apply list_elem_of_In, filter_In. split; [by apply list_elem_of_In|].
      by apply String.eqb_eq.
  - split; [split; [done | congruence]|]. split; [by intros ? ?%elem_of_nil | done].
  - split; [split; [done | congruence]|]. split; [by intros ? ?%elem_of_nil | done].
Qed.

(** *** handleDetectDisease *)

Lemma showMessage_string (noValidLeafDetected : option string) (msg : string) :
  showMessage noValidLeafDetected (JStr msg)
  = Return (JStr (localized noValidLeafDetected msg)).
Proof.
  unfold showMessage, localized. cbn [truthy].
  destruct msg as [|c msg]; [reflexivity|]. cbn [truthy_string String.eqb negb].
  by destruct (includes _ _).
Qed.

Lemma indexOf_head (c : ascii) (s : string) :
  indexOf (String c s) (String c EmptyString) = Some 0%nat.
Proof. cbn. by rewrite Ascii.eqb_refl. Qed.

(** The message drawn from the JSON text of a body with a truthy [detail]
    is the message of the detail. *)
Lemma extractMessage_whole_body JSON_parse t props detail :
  JSON_parse (stringify (JObj props)) = Return (JObj props) ->
  get_detail (JObj props) = Some detail ->
  truthy detail = true ->
  extractMessage JSON_parse t (Error (stringify (JObj props)))
  = JStr (detailMessage detail).
Proof.
  intros Hparse Hget Htruthy. unfold extractMessage. cbn [message Error].
  assert (indexOf (stringify (JObj props)) "{" = Some 0%nat) as -> by apply indexOf_head.
  cbn [str_drop]. rewrite Hparse. cbn [truthy]. rewrite Hget.
  destruct detail as [| | | |l|]; try (by rewrite Htruthy); try done.
  cbn [detailMessage]. do 2 f_equal.
  apply list_fmap_ext. intros _ d _. apply detailEntry_spec.
Qed.

(** X18. For a non-success response of any status other than 400 whose JSON
    body is an object with a truthy [detail], the component shows the
    message of the detail (the detail string, the joined entries of an
    array, or its JSON text), in the table's words when it includes the
    backend's leaf message: [handleDetectDisease] recovers it from the JSON
    text that [detectDisease] raises, given that [JSON.parse] reads that text
    back. *)
Theorem detail_is_shown_for_any_status fetch API_BASE_URL JSON_parse t noValidLeafDetected
    currentFile currentLanguage (s : Detection) status props text detail :
  truthy_string API_BASE_URL = true ->
  fetch (detectRequest API_BASE_URL currentFile currentLanguage)
  = Failed status (Return (JObj props)) text ->
  status <> 400%Z ->
  get_detail (JObj props) = Some detail ->
  truthy detail = true ->
  JSON_parse (stringify (JObj props)) = Return (JObj props) ->
  handleDetectDisease fetch API_BASE_URL JSON_parse t noValidLeafDetected
    currentFile currentLanguage s
  = (setError (Some (JStr (localized noValidLeafDetected (detailMessage detail))))
       (setResult None s), None).
Proof.
  intros Hurl Hfetch Hstatus Hget Htruthy Hparse. unfold handleDetectDisease.
  assert (detectDisease fetch API_BASE_URL currentFile currentLanguage t
          = Throw (Error (stringify (JObj props)))) as ->.
  { rewrite detectDisease_configured by done.
    unfold detectDisease_try. rewrite Hfetch. cbn [try_catch].
    rewrite detectErrorBody_other_status by done. cbn [try_catch].
    apply detectDisease_catch_rethrows, stringify_truthy. }
  by rewrite (extractMessage_whole_body _ _ _ _ Hparse Hget Htruthy), showMessage_string.
Qed.

Lemma detail_is_shown_for_any_status_witness :
  handleDetectDisease
    (Sample.always (Failed 422 (Return (Sample.errorBody Sample.validationDetail))
                      Sample.noText))
    Sample.API_BASE_URL (Scenario.parseOnly (Sample.errorBody Sample.validationDetail))
    Sample.t None Sample.leaf en Scenario.fresh
  = (setError (Some (JStr (localized None (detailMessage Sample.validationDetail))))
       (setResult None Scenario.fresh), None).
Proof.
  apply (detail_is_shown_for_any_status
           (Sample.always (Failed 422 (Return (Sample.errorBody Sample.validationDetail))
                             Sample.noText))
           Sample.API_BASE_URL (Scenario.parseOnly (Sample.errorBody Sample.validationDetail))
           Sample.t None Sample.leaf en Scenario.fresh 422
           [("detail", Sample.validationDetail)] Sample.noText Sample.validationDetail);
    (reflexivity || done).
Defined.

(** X19. For a status 400 response whose [detail] is a non-empty string
    without a brace, the component shows that string, or, when it includes
    the backend's leaf message, the table's text for it (the backend's own
    without one). *)
Theorem string_detail_is_shown_on_400 fetch API_BASE_URL JSON_parse t noValidLeafDetected
    currentFile currentLanguage (s : Detection) parsed text detail :
  truthy_string API_BASE_URL = true ->
  fetch (detectRequest API_BASE_URL currentFile currentLanguage)
  = Failed 400 (Return parsed) text ->
  get_detail parsed = Some (JStr detail) ->
  truthy_string detail = true ->
  indexOf detail "{" = None ->
  handleDetectDisease fetch API_BASE_URL JSON_parse t noValidLeafDetected
    currentFile currentLanguage s
  = (setError (Some (JStr (localized noValidLeafDetected detail))) (setResult None s), None).
Proof.
  intros Hurl Hfetch Hget Htruthy Hbrace. unfold handleDetectDisease.
  assert (detectDisease fetch API_BASE_URL currentFile currentLanguage t
          = Throw (Error detail)) as ->.
  { rewrite detectDisease_configured by done.
    unfold detectDisease_try. rewrite Hfetch. cbn [try_catch].
    rewrite (detectErrorBody_detail _ _ Hget Htruthy). cbn [try_catch detailMessage].
    by apply detectDisease_catch_rethrows. }
  unfold extractMessage. cbn [message Error]. rewrite Hbrace.
  by rewrite showMessage_string.
Qed.

Lemma string_detail_is_shown_on_400_witness :
  handleDetectDisease
    (Sample.always (Failed 400 (Return (Sample.errorBody Sample.leafDetail)) Sample.noText))
    Sample.API_BASE_URL (Scenario.parseOnly JNull) Sample.t
    (Some "Not a plant leaf. Please try another photo.") Sample.leaf en Scenario.fresh
  = (setError (Some (JStr "Not a plant leaf. Please try another photo."))
       (setResult None Scenario.fresh), None).
Proof.
  apply (string_detail_is_shown_on_400
           (Sample.always (Failed 400 (Return (Sample.errorBody Sample.leafDetail))
                             Sample.noText))
           Sample.API_BASE_URL (Scenario.parseOnly JNull) Sample.t
           (Some "Not a plant leaf. Please try another photo.") Sample.leaf en
           Scenario.fresh (Sample.errorBody Sample.leafDetail) Sample.noText
           "No valid plant leaf detected. Please upload a clear image of a plant leaf.");
    reflexivity.
Defined.


(** X20. A detection never leaves a result and an error together, whatever
    was there before: it ends with a result and no error, with an error and
    no result, or, when showing the message throws, with neither. The flags
    and the file are not touched. *)
Theorem detection_leaves_result_or_error fetch API_BASE_URL JSON_parse t
    noValidLeafDetected currentFile currentLanguage (s : Detection) :
  let out := handleDetectDisease fetch API_BASE_URL JSON_parse t noValidLeafDetected
               currentFile currentLanguage s in
  ((exists r, d_result out.1 = Some r /\ d_error out.1 = None /\ out.2 = None) \/
   (exists shown, d_result out.1 = None /\ d_error out.1 = Some shown /\ out.2 = None) \/
   (exists e, d_result out.1 = None /\ d_error out.1 = None /\ out.2 = Some e)) /\
  d_file out.1 = d_file s /\ d_loading out.1 = d_loading s /\
  d_retranslating out.1 = d_retranslating s.
Proof.
  unfold handleDetectDisease.
  destruct (detectDisease fetch API_BASE_URL currentFile currentLanguage t) as [r|err].
  - split; [left; by exists r | done].
  - destruct (showMessage noValidLeafDetected (extractMessage JSON_parse t err))
      as [shown|e].
    + split; [right; left; by exists shown | done].
    + split; [right; right; by exists e | done].
Qed.



(** *** The result view *)

(** X22. For the result mapped from a backend response, the chat panel is
    rendered exactly when the predicted disease name contains neither
    "healthy" nor "no crop detected", case-insensitively; when it contains
    "no crop detected" only the warning is rendered. *)
Theorem chat_offered_iff_diseased (data : BackendDiseaseResponse) (t : Translations) :
  let result := mapBackendResponseToDiseaseResult data t in
  let diseaseName := predicted_disease (disease_info data) in
  (ChatPanel ∈ resultBlocks result <->
     ~ contains_ignoring_case diseaseName "healthy" /\
     ~ contains_ignoring_case diseaseName "no crop detected") /\
  (resultBlocks result = [NoCropWarning] <->
     contains_ignoring_case diseaseName "no crop detected").
Proof.
  intros result diseaseName.
  pose proof (isHealthy_iff data t) as Hh. pose proof (isCropDetected_iff data t) as Hc.
  fold result diseaseName in Hh, Hc. unfold resultBlocks.
  destruct (isHealthy result), (isCropDetected result); cbn [negb andb].
  - split; [|split; [done | intros ?%Hc; done]].
    rewrite elem_of_app. split.
    + intros [Hin | Hin%elem_of_nil]; [|done]. exfalso.
      rewrite !elem_of_app in Hin.
      destruct Hin as [Hin | [Hin | [Hin | [Hin | Hin]]]];
        repeat case_match; set_solver.
    + intros [Hno _]. destruct Hno. by apply Hh.
  - split; [|rewrite app_nil_r; split; [intros _; by apply Hc | done]].
    rewrite app_nil_r. split; [set_solver|]. intros [Hno _]. destruct Hno. by apply Hh.
  - split; [|split; [|intros ?%Hc; done]].
    + split; [|intros _; apply elem_of_app; right; by left].
      intros _. split; [intros ?%Hh; done | intros ?%Hc; done].
    + intros Heq. exfalso. by repeat case_match.
  - split; [|rewrite app_nil_r; split; [intros _; by apply Hc | done]].
    rewrite app_nil_r. split; [set_solver|]. intros [_ Hno]. destruct Hno. by apply Hc.
Qed.

End DetectorViewFacts.

(** ** The chat component *)

Module ChatFacts.
Import Js GeminiService Chat.
Import JsFacts GeminiServiceFacts GeminiServiceMore.

Lemma trimStart_spaces (s : string) :
  forallb is_space (String.list_ascii_of_string s) = true -> trimStart s = EmptyString.
Proof.
  induction s as [|c s IH]; [done|]. cbn [String.list_ascii_of_string forallb trimStart].
  intros [-> Hs]%andb_prop. by apply IH.
Qed.

Lemma trim_spaces (s : string) :
  forallb is_space (String.list_ascii_of_string s) = true -> trim s = EmptyString.
Proof. intros Hs. unfold trim. by rewrite (trimStart_spaces _ Hs). Qed.

(** X23. An input made of white space only, the empty input included, and
    any input while a reply is awaited, is ignored by [handleSendMessage]:
    nothing is sent and the state stays as it is. *)
Theorem blank_or_busy_is_ignored fetch API_BASE_URL t (s : State) :
  forallb is_space (String.list_ascii_of_string (inputValue s)) = true \/
  isLoading s = true ->
  handleSendMessage fetch API_BASE_URL t s = s.
Proof.
  intros [Hblank | Hbusy]; unfold handleSendMessage.
  - by rewrite (trim_spaces _ Hblank).
  - rewrite Hbusy. by rewrite orb_true_r.
Qed.

Lemma blank_or_busy_is_ignored_witness :
  handleSendMessage (Sample.always (Rejected (TypeError "Failed to fetch")))
    Sample.API_BASE_URL Sample.t
    {| messages := []; inputValue := "   "; isLoading := false |}
  = {| messages := []; inputValue := "   "; isLoading := false |}.
Proof.
  apply (blank_or_busy_is_ignored (Sample.always (Rejected (TypeError "Failed to fetch")))
           Sample.API_BASE_URL Sample.t
           {| messages := []; inputValue := "   "; isLoading := false |}).
  left. reflexivity.
Defined.

(** X24. An accepted message grows the transcript by exactly two messages,
    after all earlier ones: the user's text as typed, and one model message.
    The request carries the typed text as message and the earlier transcript
    as history, without the new message. The model message is the reply that
    the [try] block of [sendMessageToChat] finds in the answer to that
    request; when the block throws, it is the connection error of the table
    for the [TypeError] "Failed to fetch" and the generic chat error for
    every other error. The input is cleared and the loading flag is off. *)
Theorem accepted_message_appends_two fetch API_BASE_URL t (s : State) :
  truthy_string API_BASE_URL = true ->
  truthy_string (trim (inputValue s)) = true ->
  isLoading s = false ->
  handleSendMessage fetch API_BASE_URL t s
  = {| messages :=
         messages s
         ++ [{| role := user; text := inputValue s |};
             {| role := model;
                text := match sendMessageToChat_try fetch API_BASE_URL
                                (inputValue s) (messages s) with
                        | Return reply => reply
                        | Throw error =>
                            if is_TypeError error
                               && String.eqb (message error) "Failed to fetch"
                            then replace (errorApiConnection t) "{url}" API_BASE_URL
                            else chatError t
                        end |}];
       inputValue := EmptyString;
       isLoading := false |}.
Proof.
  intros Hurl Hinput Hidle. unfold handleSendMessage.
  rewrite Hinput, Hidle. cbn [negb orb text]. rewrite removelast_last.
  rewrite sendMessageToChat_configured by done. rewrite <-app_assoc. cbn [app].
  destruct (sendMessageToChat_try fetch API_BASE_URL (inputValue s) (messages s))
    as [reply|e0]; cbn [try_catch]; [done|].
  unfold sendMessageToChat_catch. by destruct (_ && _).
Qed.

Lemma accepted_message_appends_two_witness :
  handleSendMessage
    (Sample.always (Succeeded 200
       (Return (JObj [("reply", JStr "Apply fungicide weekly")]))))
    Sample.API_BASE_URL Sample.t Scenario.talking
  = {| messages :=
         [{| role := model; text := "Your plant has Late Blight." |};
          {| role := user; text := "How do I treat it? " |};
          {| role := model; text := "Apply fungicide weekly" |}];
       inputValue := EmptyString;
       isLoading := false |}.
Proof.
  apply (accepted_message_appends_two
           (Sample.always (Succeeded 200
              (Return (JObj [("reply", JStr "Apply fungicide weekly")]))))
           Sample.API_BASE_URL Sample.t Scenario.talking); reflexivity.
Defined.

(** A backend that answers only the request carrying the typed text and the
    earlier transcript: the reply shown is its answer; when the exchange
    fails the transcript still grows by two. *)
Example the_request_carries_text_and_history :
  let expected := chatRequest Sample.API_BASE_URL (inputValue Scenario.talking)
                    (messages Scenario.talking) in
  let fetch := fun request =>
    if String.eqb (url request) (url expected)
       && match body request, body expected with
          | TextBody a, TextBody b => String.eqb a b
          | _, _ => false
          end
    then Succeeded 200 (Return (JObj [("reply", JStr "Apply fungicide weekly")]))
    else Rejected (TypeError "Failed to fetch") in
  messages (handleSendMessage fetch Sample.API_BASE_URL Sample.t Scenario.talking)
  = messages Scenario.talking
    ++ [{| role := user; text := "How do I treat it? " |};
        {| role := model; text := "Apply fungicide weekly" |}] /\
  messages (handleSendMessage (Sample.always (Failed 500 (Return JNull) Sample.noText))
              Sample.API_BASE_URL Sample.t Scenario.talking)
  = messages Scenario.talking
    ++ [{| role := user; text := "How do I treat it? " |};
        {| role := model; text := chatError Sample.t |}].
Proof. by vm_compute. Qed.

(** X25. The greeting replaces the transcript: whatever it held, it then
    holds one model message, the greeting text of the table with the disease
    name at the first [{diseaseName}], the name being free of dollar signs;
    a text without that mark is shown as it is. *)
Theorem greeting_stands_alone (chatGreeting : string)
    (analysisResult : DiseaseDetectionResult) (s : State) :
  includes (diseaseName analysisResult) "$" = false ->
  messages (greet chatGreeting analysisResult s)
  = [{| role := model;
        text := match indexOf chatGreeting "{diseaseName}" with
                | Some i => str_take i chatGreeting +:+ diseaseName analysisResult
                            +:+ str_drop (i + 13) chatGreeting
                | None => chatGreeting
                end |}] /\
  inputValue (greet chatGreeting analysisResult s) = inputValue s /\
  isLoading (greet chatGreeting analysisResult s) = isLoading s.
Proof.
  intros Hplain. split; [|done]. unfold greet. cbn [messages]. do 2 f_equal.
  destruct (indexOf chatGreeting "{diseaseName}") as [i|] eqn:Hi.
  - by rewrite (replace_first _ _ _ _ Hi Hplain).
  - by apply replace_absent.
Qed.

Lemma greeting_stands_alone_witness :
  messages (greet "Hello! I see your plant has {diseaseName}. Ask me anything."
              (mapBackendResponseToDiseaseResult (Sample.response "Late Blight") Sample.t)
              Scenario.talking)
  = [{| role := model;
        text := "Hello! I see your plant has Late Blight. Ask me anything." |}] /\
  inputValue (greet "Hello! I see your plant has {diseaseName}. Ask me anything."
                (mapBackendResponseToDiseaseResult (Sample.response "Late Blight") Sample.t)
                Scenario.talking)
  = inputValue Scenario.talking /\
  isLoading (greet "Hello! I see your plant has {diseaseName}. Ask me anything."
               (mapBackendResponseToDiseaseResult (Sample.response "Late Blight") Sample.t)
               Scenario.talking)
  = isLoading Scenario.talking.
Proof.
  apply (greeting_stands_alone "Hello! I see your plant has {diseaseName}. Ask me anything."
           (mapBackendResponseToDiseaseResult (Sample.response "Late Blight") Sample.t)
           Scenario.talking).
  reflexivity.
Defined.

End ChatFacts.
